(** * translate_mods.py: string policy, translation-memory cache and format adapters

    A shallow embedding of [src/translate_mods.py].  Python [str] values are
    modelled as [string]; a character is a code point below 256.  The cache
    (a [shelve] database used as a dict) is a [gmap string string].  Code that
    has effects (the cache, the provider, the diagnostic stream, the files) is
    written in a state-and-exception monad over one record [world]. *)

From Stdlib Require Import Ascii String ZArith NArith Bool Lia.
From stdpp Require Import base option list gmap strings pretty sorting.

Local Open Scope stdpp_scope.

Set Warnings "-register-all".

(** ** Python string methods used by the program *)

Module PyStr.

(** [str.isspace] of one character: the code points below 256 that Python
    treats as whitespace. *)
Definition isspace (c : ascii) : bool :=
  let n := N_of_ascii c in
  ((9 <=? n) && (n <=? 13) || (28 <=? n) && (n <=? 32)
   || (n =? 133) || (n =? 160))%N.

Fixpoint all_space (s : string) : bool :=
  match s with
  | "" => true
  | String c r => isspace c && all_space r
  end.

(** [s.lstrip()] *)
Fixpoint lstrip (s : string) : string :=
  match s with
  | "" => ""
  | String c r => if isspace c then lstrip r else s
  end.

(** [s.rstrip()] *)
Fixpoint rstrip (s : string) : string :=
  match s with
  | "" => ""
  | String c r =>
      match rstrip r with
      | "" => if isspace c then "" else String c ""
      | r' => String c r'
      end
  end.

(** [s.strip()] *)
Definition strip (s : string) : string := rstrip (lstrip s).

(** [s.rstrip('\n')] *)
Definition newline : ascii := "010"%char.

Fixpoint rstrip_nl (s : string) : string :=
  match s with
  | "" => ""
  | String c r =>
      match rstrip_nl r with
      | "" => if Ascii.eqb c newline then "" else String c ""
      | r' => String c r'
      end
  end.

(** [s.startswith(p)] *)
Definition startswith (s p : string) : bool := String.prefix p s.

(** [c in s] for a one-character [c] *)
Fixpoint contains (c : ascii) (s : string) : bool :=
  match s with
  | "" => false
  | String d r => Ascii.eqb c d || contains c r
  end.

(** [s.split(c, 1)] when [c] occurs in [s]: the text before the first [c]
    and the text after it.  Without an occurrence Python returns the
    one-element list [[s]], here [(s, None)]. *)
Fixpoint split1 (c : ascii) (s : string) : string * option string :=
  match s with
  | "" => ("", None)
  | String d r =>
      if Ascii.eqb c d then ("", Some r)
      else let '(k, v) := split1 c r in (String d k, v)
  end.

(** [s.replace(old, new)]: every non-overlapping occurrence of [old], found
    from the left, is replaced.  [skip] counts the characters of a matched
    occurrence that are still to be dropped. *)
Fixpoint replace_from (old new : string) (skip : nat) (s : string) : string :=
  match s with
  | "" => ""
  | String c r =>
      match skip with
      | S k => replace_from old new k r
      | O =>
          if startswith s old
          then new +:+ replace_from old new (String.length old - 1) r
          else String c (replace_from old new 0 r)
      end
  end.

(** With an empty [old] Python inserts [new] before every character and at
    the end. *)
Fixpoint intersperse (new s : string) : string :=
  match s with
  | "" => new
  | String c r => new +:+ String c (intersperse new r)
  end.

Definition replace (s old new : string) : string :=
  match old with
  | "" => intersperse new s
  | _ => replace_from old new 0 s
  end.

(** The whitespace that [lstrip] and [rstrip] remove. *)
Fixpoint leading_ws (s : string) : string :=
  match s with
  | "" => ""
  | String c r => if isspace c then String c (leading_ws r) else ""
  end.

Fixpoint trailing_ws (s : string) : string :=
  match s with
  | "" => ""
  | String c r =>
      match rstrip r with
      | "" => if isspace c then s else r
      | _ => trailing_ws r
      end
  end.

(** Last character of a string, if any. *)
Fixpoint last (s : string) : option ascii :=
  match s with
  | "" => None
  | String c "" => Some c
  | String _ r => last r
  end.

(** ASCII upper-casing, as [str.upper] acts on language codes. *)
Definition upper_char (c : ascii) : ascii :=
  let n := N_of_ascii c in
  if ((97 <=? n) && (n <=? 122))%N then ascii_of_N (n - 32) else c.

Fixpoint upper (s : string) : string :=
  match s with
  | "" => ""
  | String c r => String (upper_char c) (upper r)
  end.

End PyStr.

(** ** Exceptions, the world and the program monad *)

(** An exception caught by [except Exception], with its message. *)
Inductive exn : Type := Exception (msg : string).

Inductive result (A : Type) : Type :=
| Ok (a : A)
| Raise (e : exn).
Arguments Ok {A} a.
Arguments Raise {A} e.

(** The translation-memory cache: [shelve.open] gives a persistent dict. *)
Module TMCache.

(** [self.db.get(src)] *)
Definition get (db : gmap string string) (src : string) : option string :=
  db !! src.

(** [self.db[src] = tgt] *)
Definition put (db : gmap string string) (src tgt : string)
  : gmap string string := <[src := tgt]> db.

End TMCache.

(** Python truthiness of [cache.get(...)]: [None] and [''] are falsy. *)
Definition truthy (o : option string) : bool :=
  match o with
  | Some (String _ _) => true
  | _ => false
  end.

(** Parsed documents: what [json.load] and [yaml.safe_load] return.  A dict
    is the list of its items in insertion order; keys are strings. *)
Inductive atom : Type :=
| AInt (n : Z)
| AFloat (repr : string)
| ABool (b : bool)
| ANone.

Inductive pyobj : Type :=
| PDict (items : list (string * pyobj))
| PList (xs : list pyobj)
| PStr (s : string)
| PAtom (a : atom).

(** One entry of a translation catalog; [extra] holds the fields the program
    never touches. *)
Record POEntry (X : Type) : Type := MkPOEntry {
  msgid : string;
  msgstr : string;
  extra : X
}.
Arguments MkPOEntry {X} _ _ _.
Arguments msgid {X} _.
Arguments msgstr {X} _.
Arguments extra {X} _.

(** The parsed command line ([argparse] namespace). *)
Record Args (Delay : Type) : Type := MkArgs {
  src : string;
  tgt : string;
  backup : bool;
  api_key : option string;
  skip_regex : option string;
  delay : Delay
}.
Arguments MkArgs {Delay} _ _ _ _ _ _.
Arguments src {Delay} _.
Arguments tgt {Delay} _.
Arguments backup {Delay} _.
Arguments api_key {Delay} _.
Arguments skip_regex {Delay} _.
Arguments delay {Delay} _.

(** Everything the program reads and writes: the cache, the outside world
    the translation function talks to ([net], which includes the passing of
    time), the texts the translation function was invoked with ([calls]), the
    diagnostic stream, the text of each file by path, and the paths that
    were opened for writing ([written], in order). *)
Record world (Net : Type) : Type := World {
  cache_db : gmap string string;
  net : Net;
  calls : list string;
  stderr : list string;
  fs : gmap string string;
  written : list string
}.
Arguments World {Net} _ _ _ _ _ _.
Arguments written {Net} _.
Arguments cache_db {Net} _.
Arguments net {Net} _.
Arguments calls {Net} _.
Arguments stderr {Net} _.
Arguments fs {Net} _.

Section Program.

Context {Net : Type}.

Abbreviation W := (world Net).

Definition M (A : Type) : Type := W -> result A * W.

Definition ret {A} (a : A) : M A := fun w => (Ok a, w).

Definition raise {A} (e : exn) : M A := fun w => (Raise e, w).

Definition bind {A B} (m : M A) (k : A -> M B) : M B :=
  fun w =>
    match m w with
    | (Ok a, w') => k a w'
    | (Raise e, w') => (Raise e, w')
    end.

(** [try: body except Exception as e: handler(e)] *)
Definition try_except {A} (body : M A) (handler : exn -> M A) : M A :=
  fun w =>
    match body w with
    | (Ok a, w') => (Ok a, w')
    | (Raise e, w') => handler e w'
    end.

End Program.

Notation "x <~ m ;; k" := (bind m (fun x => k))
  (at level 100, m at next level, right associativity).
Notation "m ;;; k" := (bind m (fun _ => k))
  (at level 100, right associativity).

(** Running [g] on the elements of a list from left to right, as a
    comprehension or a [for] loop does. *)
Definition mapM {Net A B} (g : A -> @M Net B) : list A -> @M Net (list B) :=
  fix go (l : list A) : @M Net (list B) :=
    match l with
    | [] => ret []
    | x :: r => y <~ g x ;; ys <~ go r ;; ret (y :: ys)
    end.

Section Translate.

Context {Net Delay : Type}.

Abbreviation W := (world Net).
Abbreviation M := (@M Net).

(** [re.search(pattern, text)] finds a match: the regular-expression engine
    is Python's, taken as given (for a pattern it accepts). *)
Variable re_search : string -> string -> bool.

(** A translation function: it may use the provider and may raise. *)
Definition client : Type := string -> Net -> result string * Net.

(** [cache.get(src)] *)
Definition cache_get (k : string) : M (option string) :=
  fun w => (Ok (TMCache.get (cache_db w) k), w).

(** [cache.put(src, tgt)] *)
Definition cache_put (k v : string) : M unit :=
  fun w => (Ok tt,
            World (TMCache.put (cache_db w) k v) (net w) (calls w)
                  (stderr w) (fs w) (written w)).

(** [translate_func(text)] *)
Definition call_translate (translate_func : client) (text : string)
  : M string :=
  fun w =>
    let '(r, n) := translate_func text (net w) in
    (r, World (cache_db w) n (calls w ++ [text]) (stderr w) (fs w)
              (written w)).

(** [print(..., file=sys.stderr)] *)
Definition print_stderr (line : string) : M unit :=
  fun w => (Ok tt,
            World (cache_db w) (net w) (calls w) (stderr w ++ [line])
                  (fs w) (written w)).

(** [args.skip_regex and re.search(args.skip_regex, s_stripped)] *)
Definition skip_match (args : Args Delay) (s_stripped : string) : bool :=
  match skip_regex args with
  | Some (String c p) => re_search (String c p) s_stripped
  | _ => false
  end.

Definition translate_text (s : string) (translate_func : client)
    (args : Args Delay) : M string :=
  let s_stripped := PyStr.strip s in
  if decide (s_stripped = "") then ret s
  else if skip_match args s_stripped then ret s
  else
    cached <~ cache_get s_stripped ;;
    if truthy cached then
      ret (PyStr.replace s s_stripped (default "" cached))
    else
      try_except
        (translated <~ call_translate translate_func s_stripped ;;
         cache_put s_stripped translated ;;;
         ret (PyStr.replace s s_stripped translated))
        (fun e =>
           let 'Exception msg := e in
           print_stderr ("Translate error: " +:+ msg) ;;;
           ret s).

(** The [walk] closure of [translate_json] and of [translate_yaml] (the two
    are the same text).  The dict comprehension visits the items in order
    and keeps each key; the list comprehension visits the elements in
    order. *)
Fixpoint walk (translate_func : client) (args : Args Delay) (obj : pyobj)
  : M pyobj :=
  match obj with
  | PDict items =>
      items' <~ mapM (fun '(k, v) =>
                        v' <~ walk translate_func args v ;; ret (k, v'))
                     items ;;
      ret (PDict items')
  | PList xs =>
      xs' <~ mapM (walk translate_func args) xs ;;
      ret (PList xs')
  | PStr s =>
      s' <~ translate_text s translate_func args ;;
      ret (PStr s')
  | PAtom a => ret (PAtom a)
  end.

End Translate.

(** ** The serializers the handlers call

    [json.dump(new, f, ensure_ascii=False, indent=2)] and
    [yaml.safe_dump(new, f, allow_unicode=True)] are library calls; what is
    modelled of them is what the keyword arguments passed (and those left at
    their defaults) decide. *)

Module PyJson.

Definition dquote : ascii := "034"%char.
Definition backslash : ascii := "092"%char.

Definition hex_digit (n : N) : ascii :=
  if (n <? 10)%N then ascii_of_N (48 + n) else ascii_of_N (87 + n).

(** [ESCAPE_DCT] of the encoder: the two-character escapes, and
    [\u00XX] for the other control characters. *)
Definition escape_char (c : ascii) : string :=
  let n := N_of_ascii c in
  if (n =? 34)%N then String backslash (String dquote "")
  else if (n =? 92)%N then String backslash (String backslash "")
  else if (n =? 8)%N then String backslash "b"
  else if (n =? 12)%N then String backslash "f"
  else if (n =? 10)%N then String backslash "n"
  else if (n =? 13)%N then String backslash "r"
  else if (n =? 9)%N then String backslash "t"
  else if (n <? 32)%N then
    String backslash
      (String "u" (String "0" (String "0"
         (String (hex_digit (n / 16)) (String (hex_digit (n mod 16)) "")))))
  else String c "".

Fixpoint escape (s : string) : string :=
  match s with
  | "" => ""
  | String c r => escape_char c +:+ escape r
  end.

(** [encode_basestring], the string encoder chosen by
    [ensure_ascii=False]. *)
Definition encode_basestring (s : string) : string :=
  String dquote (escape s +:+ String dquote "").

Definition encode_atom (a : atom) : string :=
  match a with
  | AInt n => pretty n
  | AFloat repr => repr
  | ABool true => "true"
  | ABool false => "false"
  | ANone => "null"
  end.

Fixpoint spaces (n : nat) : string :=
  match n with
  | O => ""
  | S k => String " " (spaces k)
  end.

(** ['\n' + indent * level] with [indent=2] *)
Definition newline_indent (level : nat) : string :=
  String PyStr.newline (spaces (2 * level)).

(** The chunks between the brackets: the first item as it is, every later
    one after the separator. *)
Fixpoint join (sep : string) (l : list string) : string :=
  match l with
  | [] => ""
  | [x] => x
  | x :: r => x +:+ sep +:+ join sep r
  end.

(** The chunks of [_iterencode], concatenated.  A dict is written in the
    order of [dct.items()]: [sort_keys] keeps its default [False]. *)
Fixpoint dumps (level : nat) (o : pyobj) : string :=
  match o with
  | PDict [] => "{}"
  | PDict items =>
      "{" +:+ newline_indent (S level)
      +:+ join ("," +:+ newline_indent (S level))
            (map (fun '(k, v) =>
                    encode_basestring k +:+ ": " +:+ dumps (S level) v)
                 items)
      +:+ newline_indent level +:+ "}"
  | PList [] => "[]"
  | PList xs =>
      "[" +:+ newline_indent (S level)
      +:+ join ("," +:+ newline_indent (S level)) (map (dumps (S level)) xs)
      +:+ newline_indent level +:+ "]"
  | PStr s => encode_basestring s
  | PAtom a => encode_atom a
  end.

End PyJson.

Module PyYaml.

(** Order of two dict items under [sorted(mapping.items())]: by key, in
    code-point order. *)
Definition item_le (x y : string * pyobj) : Prop := (x.1 ≤ y.1)%string.

#[global] Instance item_le_dec : RelDecision item_le.
Proof. intros x y. unfold item_le. apply _. Defined.

(** The representer of [safe_dump]: [sort_keys] keeps its default [True],
    so the items of every mapping are sorted before they are written.  The
    result lists each mapping's items in the order the emitter writes
    them. *)
Fixpoint represent (o : pyobj) : pyobj :=
  match o with
  | PDict items =>
      PDict (merge_sort item_le
               (map (fun '(k, v) => (k, represent v)) items))
  | PList xs => PList (map represent xs)
  | PStr s => PStr s
  | PAtom a => PAtom a
  end.

End PyYaml.



(** ** The format adapters *)

Section Handlers.

Context {Net Delay X : Type}.

Abbreviation M := (@M Net).

Variable re_search : string -> string -> bool.

(** The parsers and the remaining writers are library code, taken as
    given: [json.load], [yaml.safe_load], the emitter behind
    [yaml.safe_dump] (after representation), [polib.pofile] and the text
    [POFile.save] writes. *)
Variable json_load : string -> result pyobj.
Variable yaml_safe_load : string -> result pyobj.
Variable yaml_emit : pyobj -> string.
Variable pofile : string -> result (list (POEntry X)).
Variable po_text : list (POEntry X) -> string.

Definition lift {A} (r : result A) : M A := fun w => (r, w).

(** [open(path, 'r', encoding=enc)] and reading: the text of the file as
    decoded with the detected encoding, or an exception when there is no such
    file. *)
Definition read_text (path : string) : M string :=
  fun w =>
    match fs w !! path with
    | Some text => (Ok text, w)
    | None => (Raise (Exception ("No such file or directory: " +:+ path)), w)
    end.

(** [open(path, 'w', encoding='utf-8')] and writing [text]. *)
Definition write_text (path text : string) : M unit :=
  fun w => (Ok tt,
            World (cache_db w) (net w) (calls w) (stderr w)
                  (<[path := text]> (fs w)) (written w ++ [path])).

(** [for line in f]: the lines of a text, each with its newline. *)
Fixpoint readlines (s : string) : list string :=
  match s with
  | "" => []
  | String c r =>
      if Ascii.eqb c PyStr.newline then String c "" :: readlines r
      else match readlines r with
           | [] => [String c ""]
           | l :: ls => String c l :: ls
           end
  end.

(** [f.writelines(lines)] writes the lines one after the other. *)
Fixpoint joinlines (lines : list string) : string :=
  match lines with
  | [] => ""
  | l :: ls => l +:+ joinlines ls
  end.

Definition translate_json (path : string) (translate_func : client)
    (args : Args Delay) : M unit :=
  text <~ read_text path ;;
  data <~ lift (json_load text) ;;
  new <~ walk re_search translate_func args data ;;
  write_text path (PyJson.dumps 0 new).

Definition translate_yaml (path : string) (translate_func : client)
    (args : Args Delay) : M unit :=
  text <~ read_text path ;;
  data <~ lift (yaml_safe_load text) ;;
  new <~ walk re_search translate_func args data ;;
  write_text path (yaml_emit (PyYaml.represent new)).

(** The body of the loop of [translate_properties]: the output line for
    one input line. *)
Definition properties_line (line : string) (translate_func : client)
    (args : Args Delay) : M string :=
  if PyStr.startswith (PyStr.strip line) "#"
     || negb (PyStr.contains "="%char line)
  then ret line
  else
    let '(key, val) := PyStr.split1 "="%char line in
    let val_s := PyStr.rstrip_nl (default "" val) in
    newval <~ translate_text re_search val_s translate_func args ;;
    ret (key +:+ "=" +:+ newval +:+ String PyStr.newline "").

Fixpoint properties_loop (lines lines_out : list string)
    (translate_func : client) (args : Args Delay) : M (list string) :=
  match lines with
  | [] => ret lines_out
  | line :: rest =>
      out <~ properties_line line translate_func args ;;
      properties_loop rest (lines_out ++ [out]) translate_func args
  end.

Definition translate_properties (path : string) (translate_func : client)
    (args : Args Delay) : M unit :=
  text <~ read_text path ;;
  lines_out <~ properties_loop (readlines text) [] translate_func args ;;
  write_text path (joinlines lines_out).

(** The body of the loop of [translate_txt]. *)
Definition txt_line (line : string) (translate_func : client)
    (args : Args Delay) : M string :=
  let s := PyStr.rstrip_nl line in
  if decide (PyStr.strip s = "") then ret line
  else
    out <~ translate_text re_search s translate_func args ;;
    ret (out +:+ String PyStr.newline "").

Fixpoint txt_loop (lines out_lines : list string)
    (translate_func : client) (args : Args Delay) : M (list string) :=
  match lines with
  | [] => ret out_lines
  | line :: rest =>
      out <~ txt_line line translate_func args ;;
      txt_loop rest (out_lines ++ [out]) translate_func args
  end.

Definition translate_txt (path : string) (translate_func : client)
    (args : Args Delay) : M unit :=
  text <~ read_text path ;;
  out_lines <~ txt_loop (readlines text) [] translate_func args ;;
  write_text path (joinlines out_lines).

(** The loop of [translate_po]: the entries as they are after the loop (in
    their order), and the [changed] flag. *)
Fixpoint po_loop (entries : list (POEntry X)) (changed : bool)
    (translate_func : client) (args : Args Delay)
  : M (list (POEntry X) * bool) :=
  match entries with
  | [] => ret ([], changed)
  | entry :: rest =>
      if decide (PyStr.strip (msgid entry) = "") then
        r <~ po_loop rest changed translate_func args ;;
        ret (entry :: r.1, r.2)
      else
        let src := msgid entry in
        if decide (PyStr.strip (msgstr entry) = "") then
          new <~ translate_text re_search src translate_func args ;;
          r <~ po_loop rest true translate_func args ;;
          ret (MkPOEntry (msgid entry) new (extra entry) :: r.1, r.2)
        else
          r <~ po_loop rest changed translate_func args ;;
          ret (entry :: r.1, r.2)
  end.

(** [polib.pofile(path)] reads the file at [path]; given a string that
    names no file, it parses the string itself as catalog text. *)
Definition po_source (path : string) : M string :=
  fun w => (Ok (default path (fs w !! path)), w).

Definition translate_po (path : string) (translate_func : client)
    (args : Args Delay) : M unit :=
  text <~ po_source path ;;
  po <~ lift (pofile text) ;;
  r <~ po_loop po false translate_func args ;;
  if r.2 then write_text path (po_text r.1) else ret tt.

(** ** The provider call and the translation function built in [main] *)

(** The HTTP exchange of [call_deepl]: [requests.post] with the form
    fields, [raise_for_status], and [translations[0].text] of the JSON
    answer; any failure is an exception. *)
Variable deepl_post : list (string * string) -> Net -> result string * Net.

(** [time.sleep(seconds)] as the outside world sees it. *)
Variable sleep : Delay -> Net -> Net.

Definition call_deepl (text src_lang tgt_lang api_key : string)
  : Net -> result string * Net :=
  let params :=
    [("auth_key", api_key); ("text", text);
     ("source_lang", PyStr.upper src_lang);
     ("target_lang", PyStr.upper tgt_lang)] in
  deepl_post params.

Definition translate_func_factory (args : Args Delay) : client :=
  fun text n =>
    call_deepl text (src args) (tgt args) (default "" (api_key args))
               (sleep (delay args) n).

End Handlers.

(** ** Notions used to state the properties *)

(** A translation function that depends on the text alone. *)
Definition pure_client {Net : Type} (g : string -> result string)
  : @client Net := fun text n => (g text, n).

(** The translation there is for a trimmed text: the cached one when the
    cache holds a non-empty one, else what the translation function
    returns. *)
Definition translation_of {Net : Type} (f : @client Net) (w : world Net)
    (core : string) : option string :=
  if truthy (cache_db w !! core) then cache_db w !! core
  else match (f core (net w)).1 with
       | Ok t => Some t
       | Raise _ => None
       end.

(** Every non-empty cached translation is the one [g] gives. *)
Definition cache_agrees (g : string -> result string)
    (db : gmap string string) : Prop :=
  forall k v, db !! k = Some v -> v <> "" -> g k = Ok v.

(** What a walk keeps true between two candidates: the cache agrees with
    [g], and the files are those of [w0]. *)
Definition walk_inv {Net : Type} (g : string -> result string)
    (w0 w : world Net) : Prop :=
  cache_agrees g (cache_db w) /\ fs w = fs w0 /\ written w = written w0.

(** What becomes of a candidate when the translation function is [g]:
    blank and excluded candidates stay, a candidate [g] raises for stays,
    any other has its trimmed text replaced by [g]'s translation. *)
Definition resolve (skip : string -> bool) (g : string -> result string)
    (s : string) : string :=
  if decide (PyStr.strip s = "") then s
  else if skip (PyStr.strip s) then s
  else match g (PyStr.strip s) with
       | Ok t => PyStr.replace s (PyStr.strip s) t
       | Raise _ => s
       end.

(** Applying [h] to every string leaf of a document. *)
Fixpoint map_leaves (h : string -> string) (o : pyobj) : pyobj :=
  match o with
  | PDict items => PDict (map (fun '(k, v) => (k, map_leaves h v)) items)
  | PList xs => PList (map (map_leaves h) xs)
  | PStr s => PStr (h s)
  | PAtom a => PAtom a
  end.


(** Two documents of one shape: the same keys in the same order, the same
    sequence lengths, the same non-string scalars in the same places, and
    string leaves related by [R]. *)
Inductive leafwise (R : string -> string -> Prop) : pyobj -> pyobj -> Prop :=
| lw_dict items items' :
    Forall2 (fun a b => a.1 = b.1 /\ leafwise R a.2 b.2) items items' ->
    leafwise R (PDict items) (PDict items')
| lw_list xs xs' :
    Forall2 (leafwise R) xs xs' ->
    leafwise R (PList xs) (PList xs')
| lw_str s s' : R s s' -> leafwise R (PStr s) (PStr s')
| lw_atom a : leafwise R (PAtom a) (PAtom a).

(** A run of [put]s, in order. *)
Definition put_all (db : gmap string string) (ops : list (string * string))
  : gmap string string :=
  foldl (fun d kv => TMCache.put d kv.1 kv.2) db ops.

(** An entry [translate_po] translates: its id is not blank and its
    translation is. *)
Definition po_candidate {X : Type} (e : POEntry X) : bool :=
  bool_decide (PyStr.strip (msgid e) <> "")
  && bool_decide (PyStr.strip (msgstr e) = "").

(** An entry after the loop of [translate_po], against the entry before it:
    a candidate has the result of [translate_text] on its id as its
    translation, any other entry is the same. *)
Definition po_step {Net Delay X : Type} (re_search : string -> string -> bool)
    (f : @client Net) (args : Args Delay) (e e' : POEntry X) : Prop :=
  msgid e' = msgid e /\ extra e' = extra e
  /\ if po_candidate e
     then exists w1,
            (translate_text re_search (msgid e) f args w1).1 = Ok (msgstr e')
     else e' = e.


Fixpoint string_forall (P : ascii -> Prop) (s : string) : Prop :=
  match s with
  | "" => True
  | String c r => P c /\ string_forall P r
  end.

(** ** Small concrete instances, for the examples *)

(** A command line with no exclusion pattern, English to Japanese. *)
Definition args_en_ja : Args unit :=
  MkArgs "EN" "JA" false (Some "secret") None tt.

(** The same from English to French. *)
Definition args_en_fr : Args unit :=
  MkArgs "EN" "FR" false (Some "secret") None tt.

(** A command line whose exclusion pattern is [^[0-9]+$]. *)
Definition args_skip_numbers : Args unit :=
  MkArgs "EN" "JA" false (Some "secret") (Some "^[0-9]+$") tt.

(** A world with an empty cache and no file. *)
Definition w_empty : world unit := World ∅ tt [] [] ∅ [].

(** A world with an empty cache and one file. *)
Definition w_file (path text : string) : world unit :=
  World ∅ tt [] [] {[ path := text ]} [].

(** A stand-in for [re.search] that matches nothing. *)
Definition re_none : string -> string -> bool := fun _ _ => false.

(** A stand-in for [re.search] that knows the pattern [^[0-9]+$]. *)
Definition is_digit (c : ascii) : bool :=
  ((48 <=? N_of_ascii c) && (N_of_ascii c <=? 57))%N.

Fixpoint all_digits (s : string) : bool :=
  match s with
  | "" => true
  | String c r => is_digit c && all_digits r
  end.

Definition re_numbers (p s : string) : bool :=
  bool_decide (p = "^[0-9]+$") && bool_decide (s <> "") && all_digits s.

(** A translation function that upper-cases, and raises for ["c"]. *)
Definition shout (text : string) : result string :=
  if decide (text = "c") then Raise (Exception "quota exceeded")
  else Ok (PyStr.upper text).

(** A provider that answers with the text and the target language. *)
Definition echo_post (params : list (string * string)) (n : unit)
  : result string * unit :=
  match params with
  | [(_, _); (_, text); (_, _); (_, tgt)] => (Ok (text +:+ "@" +:+ tgt), n)
  | _ => (Raise (Exception "bad request"), n)
  end.

(** ** The markup adapter *)

(** An [xml.etree] element: its tag, its attributes in order, the text before
    its first child, the text after its end tag, and its children. *)
Inductive element : Type :=
| Element (tag : string) (attrib : list (string * string))
    (text tail : option string) (children : list element).

(** [elem.text and elem.text.strip()] *)
Definition text_present (text : option string) : bool :=
  match text with
  | Some (String c r) => negb (bool_decide (PyStr.strip (String c r) = ""))
  | _ => false
  end.

Section Markup.

Context {Net Delay : Type}.

Variable re_search : string -> string -> bool.

(** [ET.parse] with the parser of the detected encoding, and the text
    [tree.write(path, encoding='utf-8', xml_declaration=True)] writes: library
    code, taken as given. *)
Variable xml_parse : string -> result element.
Variable xml_text : element -> string.

(** The [walk] closure of [translate_xml].  It changes the elements in
    place; here it returns the element as it is afterwards. *)
Fixpoint xml_walk (translate_func : @client Net) (args : Args Delay)
    (elem : element) : @M Net element :=
  match elem with
  | Element tag attrib text tail children =>
      text' <~ (if text_present text
                then t <~ translate_text re_search (default "" text)
                            translate_func args ;;
                     ret (Some t)
                else ret text) ;;
      attrib' <~ mapM (fun '(k, v) =>
                         v' <~ translate_text re_search v translate_func args ;;
                         ret (k, v'))
                      attrib ;;
      children' <~ mapM (xml_walk translate_func args) children ;;
      ret (Element tag attrib' text' tail children')
  end.

Definition translate_xml (path : string) (translate_func : @client Net)
    (args : Args Delay) : @M Net unit :=
  text <~ read_text path ;;
  root <~ lift (xml_parse text) ;;
  root' <~ xml_walk translate_func args root ;;
  write_text path (xml_text root').

End Markup.

(** ** Paths, the backup and the loop of [main] *)

(** [str.lower] of one character (code points below 256). *)
Definition lower_char (c : ascii) : ascii :=
  let n := N_of_ascii c in
  if ((65 <=? n) && (n <=? 90)
      || (192 <=? n) && (n <=? 222) && negb (n =? 215))%N
  then ascii_of_N (n + 32) else c.

Fixpoint lower (s : string) : string :=
  match s with
  | "" => ""
  | String c r => String (lower_char c) (lower r)
  end.

(** [Path.name]: the last component of a path, written as [str(Path(..))]
    gives it (no slash at its end). *)
Fixpoint path_name (p : string) : string :=
  match p with
  | "" => ""
  | String c r =>
      if Ascii.eqb c "/"%char then path_name r
      else if PyStr.contains "/"%char r then path_name r
      else p
  end.

(** The text from the last dot of [s] on, when [s] holds a dot. *)
Fixpoint from_last_dot (s : string) : option string :=
  match s with
  | "" => None
  | String c r =>
      match from_last_dot r with
      | Some t => Some t
      | None => if Ascii.eqb c "."%char then Some s else None
      end
  end.

(** [Path.suffix]: the name from its last dot on, unless that dot starts or
    ends the name. *)
Definition suffix (p : string) : string :=
  match path_name p with
  | "" => ""
  | String _ r =>
      match from_last_dot r with
      | Some (String d (String e t)) => String d (String e t)
      | _ => ""
      end
  end.

(** What [main] keeps besides the world: the standard output and the rows of
    the log. *)
Record run (Net : Type) : Type := Run {
  run_world : world Net;
  stdout : list string;
  log_rows : list (list string)
}.
Arguments Run {Net} _ _ _.
Arguments run_world {Net} _.
Arguments stdout {Net} _.
Arguments log_rows {Net} _.

Section Main.

Context {Net Delay X : Type}.

Variable re_search : string -> string -> bool.
Variable json_load : string -> result pyobj.
Variable yaml_safe_load : string -> result pyobj.
Variable yaml_emit : pyobj -> string.
Variable pofile : string -> result (list (POEntry X)).
Variable po_text : list (POEntry X) -> string.
Variable xml_parse : string -> result element.
Variable xml_text : element -> string.

(** A format adapter as [main] calls it. *)
Definition handler : Type :=
  string -> @client Net -> Args Delay -> @M Net unit.

(** [exts_handlers.get(ext)] *)
Definition exts_handlers (ext : string) : option handler :=
  if decide (ext = ".json") then Some (translate_json re_search json_load)
  else if decide (ext = ".yml")
  then Some (translate_yaml re_search yaml_safe_load yaml_emit)
  else if decide (ext = ".yaml")
  then Some (translate_yaml re_search yaml_safe_load yaml_emit)
  else if decide (ext = ".properties")
  then Some (translate_properties re_search)
  else if decide (ext = ".txt") then Some (translate_txt re_search)
  else if decide (ext = ".po")
  then Some (translate_po re_search pofile po_text)
  else if decide (ext = ".xml")
  then Some (translate_xml re_search xml_parse xml_text)
  else None.

(** [shutil.copy2(src, dst)]: the content of [src] becomes the content of
    [dst]; a missing source and a copy onto itself raise. *)
Definition copy2 (src dst : string) : @M Net unit :=
  if decide (src = dst)
  then raise (Exception (src +:+ " and " +:+ dst +:+ " are the same file"))
  else text <~ read_text src ;; write_text dst text.

(** The backup loop of [main]: every file goes to [backup_dir / f.name]. *)
Fixpoint backup_files (backup_dir : string) (file_list : list string)
  : @M Net unit :=
  match file_list with
  | [] => ret tt
  | f :: rest =>
      copy2 f (backup_dir +:+ "/" +:+ path_name f) ;;;
      backup_files backup_dir rest
  end.

(** The body of the translation loop of [main], for one file. *)
Definition process_file (translate_func : @client Net) (args : Args Delay)
    (f : string) (st : run Net) : run Net :=
  let ext := lower (suffix f) in
  match exts_handlers ext with
  | None =>
      Run (run_world st) (stdout st ++ ["skip (no handler): " +:+ f])
          (log_rows st)
  | Some h =>
      let out := stdout st ++ ["Translating: " +:+ f] in
      match h f translate_func args (run_world st) with
      | (Ok _, w) => Run w out (log_rows st ++ [[f; "OK"]])
      | (Raise (Exception msg), w) =>
          Run (World (cache_db w) (net w) (calls w)
                     (stderr w ++ ["Error processing " +:+ f +:+ " " +:+ msg])
                     (fs w) (written w))
              out (log_rows st ++ [[f; "ERROR"; msg]])
      end
  end.

Fixpoint main_loop (translate_func : @client Net) (args : Args Delay)
    (file_list : list string) (st : run Net) : run Net :=
  match file_list with
  | [] => st
  | f :: rest =>
      main_loop translate_func args rest (process_file translate_func args f st)
  end.

End Main.

(** ** More notions used to state properties *)



(** A file [main] has a handler for. *)
Definition handled (p : string) : bool :=
  bool_decide (lower (suffix p) ∈
                 [".json"; ".yml"; ".yaml"; ".properties"; ".txt"; ".po";
                  ".xml"]).

(** A row of the log for the file [f]. *)
Definition row_of (f : string) (row : list string) : Prop :=
  row = [f; "OK"] \/ exists msg, row = [f; "ERROR"; msg].


(** How often [k] occurs in a list of texts. *)
Definition occurrences (k : string) (l : list string) : nat :=
  length (filter (fun c => c = k) l).


(** What becomes of a catalog entry when the translation function is [g]: a
    candidate gets [resolve] of its id as its translation. *)
Definition po_resolved {X : Type} (skip : string -> bool)
    (g : string -> result string) (e : POEntry X) : POEntry X :=
  if po_candidate e
  then MkPOEntry (msgid e) (resolve skip g (msgid e)) (extra e)
  else e.

(** The place of the backup of [f] under [backup_dir]. *)
Definition backup_path (backup_dir f : string) : string :=
  backup_dir +:+ "/" +:+ path_name f.

(** ** More small concrete instances *)

(** A markup document: a root with an attribute and a text, and one child
    with a text and a tail. *)
Definition el_greeting : element :=
  Element "root" [("title", " hi ")] (Some "Hello") None
    [Element "b" [] (Some "c") (Some " tail ") []].

(** A translation function that always answers ["x"]. *)
Definition always_x (text : string) : result string := Ok "x".

(** The state of [main] before its loop, over the files of [w]. *)
Definition run_start (w : world unit) : run unit := Run w [] [].

(** A world with an empty cache and two files of one name. *)
Definition w_two_files : world unit :=
  World ∅ tt [] [] {[ "x/a.txt" := "first"; "y/a.txt" := "second" ]} [].

(** * Facts about the string methods *)

Section StringFacts.

Import PyStr.

Lemma sapp_nil (s : string) : "" +:+ s = s.
Proof. reflexivity. Qed.

Lemma sapp_cons (c : ascii) (a b : string) :
  String c a +:+ b = String c (a +:+ b).
Proof. reflexivity. Qed.

Lemma sapp_empty_r (s : string) : s +:+ "" = s.
Proof.
  induction s as [|c r IH]; [done |]. by rewrite sapp_cons, IH.
Qed.


Ltac sapp := rewrite ?sapp_cons, ?sapp_nil.

Lemma all_space_app (a b : string) :
  all_space (a +:+ b) = all_space a && all_space b.
Proof.
  induction a as [|c r IH]; sapp; simpl; [done |].
  rewrite IH. by rewrite andb_assoc.
Qed.

Lemma leading_ws_all_space (s : string) : all_space (leading_ws s) = true.
Proof.
  induction s as [|c r IH]; simpl; [done |].
  destruct (isspace c) eqn:E; simpl; [by rewrite E | done].
Qed.

Lemma lstrip_split (s : string) : s = leading_ws s +:+ lstrip s.
Proof.
  induction s as [|c r IH]; simpl; [done |].
  destruct (isspace c); sapp; [by rewrite <- IH | done].
Qed.

Lemma lstrip_head (s : string) (c : ascii) (r : string) :
  lstrip s = String c r -> isspace c = false.
Proof.
  induction s as [|d t IH]; simpl; [done |].
  destruct (isspace d) eqn:E; [done |].
  intros [= -> ->]. done.
Qed.

Lemma rstrip_empty_all_space (s : string) :
  rstrip s = "" <-> all_space s = true.
Proof.
  induction s as [|c r IH]; simpl; [done |].
  destruct (rstrip r) eqn:Er.
  - destruct (isspace c); simpl; [| split; done].
    split; [intros _; by apply IH | done].
  - split; [done |].
    intros [_ H]%andb_true_iff. apply IH in H. done.
Qed.

Lemma trailing_ws_all_space (s : string) : all_space (trailing_ws s) = true.
Proof.
  induction s as [|c r IH]; simpl; [done |].
  destruct (rstrip r) eqn:Er; [| done].
  apply rstrip_empty_all_space in Er.
  destruct (isspace c) eqn:E; simpl; [by rewrite E | done].
Qed.

Lemma rstrip_split (s : string) : s = rstrip s +:+ trailing_ws s.
Proof.
  induction s as [|c r IH]; simpl; [done |].
  destruct (rstrip r) eqn:Er.
  - destruct (isspace c); sapp; done.
  - sapp. f_equal. done.
Qed.

Lemma rstrip_head (c : ascii) (r : string) :
  isspace c = false -> exists r', rstrip (String c r) = String c r'.
Proof.
  intros E. simpl. rewrite E. destruct (rstrip r); eauto.
Qed.

(** The stripped text is empty or starts with a character that is not
    whitespace. *)
Lemma strip_head (s : string) (c : ascii) (r : string) :
  strip s = String c r -> isspace c = false.
Proof.
  unfold strip. destruct (lstrip s) as [|d t] eqn:El; [done |].
  pose proof (lstrip_head _ _ _ El) as Hd.
  destruct (rstrip_head d t Hd) as [r' ->].
  intros [= -> _]. done.
Qed.

(** It also ends with one. *)
Lemma rstrip_last (s : string) (c : ascii) :
  last (rstrip s) = Some c -> isspace c = false.
Proof.
  induction s as [|d r IH]; simpl; [done |].
  destruct (rstrip r) as [|e t] eqn:Er.
  - destruct (isspace d) eqn:E; simpl; [done |]. by intros [= <-].
  - simpl. simpl in IH. done.
Qed.

Lemma strip_last (s : string) (c : ascii) :
  last (strip s) = Some c -> isspace c = false.
Proof. apply rstrip_last. Qed.

Lemma trailing_ws_skip (a b : string) :
  rstrip b <> "" -> all_space a = true ->
  trailing_ws (a +:+ b) = trailing_ws b.
Proof.
  intros Hb. induction a as [|c r IH]; sapp; simpl; [done |].
  intros [_ Hr]%andb_true_iff.
  destruct (rstrip (r +:+ b)) eqn:E; [| auto].
  apply rstrip_empty_all_space in E. rewrite all_space_app in E.
  apply andb_true_iff in E as [_ E]. apply rstrip_empty_all_space in E. done.
Qed.

(** Every string is its leading whitespace, its stripped text and its
    trailing whitespace. *)
Lemma strip_split (s : string) :
  strip s <> "" -> s = leading_ws s +:+ strip s +:+ trailing_ws s.
Proof.
  intros Hs. rewrite (lstrip_split s) at 1.
  f_equal. rewrite (lstrip_split s) at 3.
  rewrite trailing_ws_skip by auto using leading_ws_all_space.
  apply rstrip_split.
Qed.

Lemma strip_all_space (s : string) : strip s = "" <-> all_space s = true.
Proof.
  unfold strip. rewrite rstrip_empty_all_space.
  rewrite (lstrip_split s) at 2. rewrite all_space_app.
  rewrite leading_ws_all_space. done.
Qed.

Lemma rstrip_idem (s : string) : rstrip (rstrip s) = rstrip s.
Proof.
  induction s as [|c r IH]; simpl; [done |].
  destruct (rstrip r) as [|d t] eqn:Er.
  - destruct (isspace c) eqn:Ec; simpl; [done | by rewrite Ec].
  - simpl in *. by rewrite IH.
Qed.

(** Normalisation is idempotent. *)
Lemma strip_idem (s : string) : strip (strip s) = strip s.
Proof.
  destruct (strip s) as [|c r] eqn:E; [done |].
  pose proof (strip_head _ _ _ E) as Hc.
  unfold strip at 1. simpl lstrip. rewrite Hc.
  rewrite <- E. apply rstrip_idem.
Qed.

Lemma prefix_app (a b : string) : String.prefix a (a +:+ b) = true.
Proof.
  induction a as [|c r IH]; sapp; simpl.
  - by destruct b.
  - destruct (ascii_dec c c); [done | congruence].
Qed.

Lemma replace_from_skip (old new a b : string) :
  replace_from old new (String.length a) (a +:+ b)
  = replace_from old new 0 b.
Proof. induction a as [|c r IH]; sapp; simpl; [by destruct b | done]. Qed.

(** Text made of whitespace holds no occurrence of a string that starts
    with another character. *)
Lemma replace_from_space (c : ascii) (core new ws rest : string) :
  isspace c = false -> all_space ws = true ->
  replace_from (String c core) new 0 (ws +:+ rest)
  = ws +:+ replace_from (String c core) new 0 rest.
Proof.
  intros Hc. induction ws as [|d r IH]; sapp; simpl; [done |].
  intros [Hd Hr]%andb_true_iff.
  unfold startswith. simpl.
  destruct (ascii_dec c d) as [->|_]; [congruence |].
  by rewrite IH.
Qed.

(** The splice of [translate_text]: replacing the stripped text inside the
    candidate leaves the surrounding whitespace in place. *)
Lemma replace_strip (s new : string) :
  strip s <> "" ->
  replace s (strip s) new = leading_ws s +:+ new +:+ trailing_ws s.
Proof.
  intros Hs. rewrite (strip_split s Hs) at 1.
  destruct (strip s) as [|c core] eqn:E; [done |].
  pose proof (strip_head _ _ _ E) as Hc.
  unfold replace.
  rewrite replace_from_space by auto using leading_ws_all_space.
  f_equal. rewrite sapp_cons. simpl. unfold startswith. simpl.
  destruct (ascii_dec c c); [| congruence].
  rewrite prefix_app. f_equal.
  rewrite Nat.sub_0_r, replace_from_skip.
  rewrite <- (sapp_empty_r (trailing_ws s)) at 1.
  rewrite replace_from_space by auto using trailing_ws_all_space.
  by rewrite sapp_empty_r.
Qed.

Lemma intersperse_empty (s : string) : intersperse "" s = s.
Proof. induction s as [|c r IH]; simpl; sapp; [done | by f_equal]. Qed.

Lemma replace_same (s : string) : replace s (strip s) (strip s) = s.
Proof.
  destruct (decide (strip s = "")) as [E|E].
  - rewrite E. apply intersperse_empty.
  - rewrite replace_strip by done. by rewrite <- strip_split.
Qed.

End StringFacts.

(** * The string policy: [translate_text] case by case *)

Section TranslateFacts.

Context {Net Delay : Type}.
Variable re_search : string -> string -> bool.

Implicit Types (s : string) (f : @client Net) (args : Args Delay)
  (w : world Net).

Abbreviation translate_text' := (translate_text re_search).

Ltac run :=
  unfold translate_text, bind, ret, try_except, cache_get, cache_put,
    call_translate, print_stderr, TMCache.get, TMCache.put; simpl.

Lemma truthy_some (o : option string) :
  truthy o = true -> exists v, o = Some v /\ v <> "".
Proof. destruct o as [[|c r]|]; simpl; try done. eauto. Qed.

Lemma truthy_false (o : option string) :
  truthy o = false <-> o = None \/ o = Some "".
Proof.
  destruct o as [[|c r]|]; simpl; split; try tauto; try discriminate.
  intros [H|H]; discriminate.
Qed.

Lemma translate_text_blank s f args w :
  PyStr.strip s = "" -> translate_text' s f args w = (Ok s, w).
Proof. intros E. run. by rewrite decide_True. Qed.

Lemma translate_text_skip s f args w :
  skip_match re_search args (PyStr.strip s) = true ->
  translate_text' s f args w = (Ok s, w).
Proof. intros E. run. rewrite E. by destruct (decide _). Qed.

Lemma translate_text_hit s f args w v :
  PyStr.strip s <> "" ->
  skip_match re_search args (PyStr.strip s) = false ->
  cache_db w !! PyStr.strip s = Some v -> v <> "" ->
  translate_text' s f args w
  = (Ok (PyStr.replace s (PyStr.strip s) v), w).
Proof.
  intros E Hs Hv Hne. run. rewrite decide_False by done.
  rewrite Hs, Hv. by destruct v.
Qed.

Lemma translate_text_miss_ok s f args w t n' :
  PyStr.strip s <> "" ->
  skip_match re_search args (PyStr.strip s) = false ->
  truthy (cache_db w !! PyStr.strip s) = false ->
  f (PyStr.strip s) (net w) = (Ok t, n') ->
  translate_text' s f args w
  = (Ok (PyStr.replace s (PyStr.strip s) t),
     World (<[PyStr.strip s := t]> (cache_db w)) n'
           (calls w ++ [PyStr.strip s]) (stderr w) (fs w) (written w)).
Proof.
  intros E Hs Hc Hf. run. rewrite decide_False by done.
  rewrite Hs, Hc, Hf. done.
Qed.

Lemma translate_text_miss_raise s f args w msg n' :
  PyStr.strip s <> "" ->
  skip_match re_search args (PyStr.strip s) = false ->
  truthy (cache_db w !! PyStr.strip s) = false ->
  f (PyStr.strip s) (net w) = (Raise (Exception msg), n') ->
  translate_text' s f args w
  = (Ok s,
     World (cache_db w) n' (calls w ++ [PyStr.strip s])
           (stderr w ++ ["Translate error: " +:+ msg]) (fs w) (written w)).
Proof.
  intros E Hs Hc Hf. run. rewrite decide_False by done.
  rewrite Hs, Hc, Hf. done.
Qed.

(** No exception leaves [translate_text]. *)
Lemma translate_text_total s f args w :
  exists r w', translate_text' s f args w = (Ok r, w').
Proof.
  destruct (decide (PyStr.strip s = "")) as [E|E].
  { rewrite translate_text_blank by done. eauto. }
  destruct (skip_match re_search args (PyStr.strip s)) eqn:Hs.
  { rewrite translate_text_skip by done. eauto. }
  destruct (truthy (cache_db w !! PyStr.strip s)) eqn:Hc.
  { apply truthy_some in Hc as (v & Hv & Hne).
    erewrite translate_text_hit by done. eauto. }
  destruct (f (PyStr.strip s) (net w)) as [[t|[msg]] n'] eqn:Hf.
  - erewrite translate_text_miss_ok by done. eauto.
  - erewrite translate_text_miss_raise by done. eauto.
Qed.

End TranslateFacts.

(** * The translation-memory cache *)

Section CacheClaims.

Implicit Types (db : gmap string string) (k v : string).

Lemma put_all_other db ops k :
  Forall (fun kv => kv.1 <> k) ops ->
  TMCache.get (put_all db ops) k = TMCache.get db k.
Proof.
  revert db. induction ops as [|[k' v'] ops IH]; intros db Hops; [done |].
  apply Forall_cons in Hops as [Hk Hops]. simpl in *.
  rewrite IH by done. unfold TMCache.get, TMCache.put.
  by rewrite lookup_insert_ne.
Qed.

(** C8. A [put(k, v)] followed by [get(k)] returns exactly [v]; this holds
    for every key and value (so for the non-empty ones), and it still
    holds after any number of later [put]s under other keys: nothing is
    evicted and nothing expires. *)
Theorem cache_put_get db k v (ops : list (string * string)) :
  Forall (fun kv => kv.1 <> k) ops ->
  TMCache.get (TMCache.put db k v) k = Some v
  /\ TMCache.get (put_all (TMCache.put db k v) ops) k = Some v.
Proof.
  intros Hops.
  assert (TMCache.get (TMCache.put db k v) k = Some v) as H.
  { unfold TMCache.get, TMCache.put. apply lookup_insert_eq. }
  split; [done |]. by rewrite put_all_other.
Qed.

End CacheClaims.

(** * The string policy *)

Section PolicyClaims.

Context {Net Delay : Type}.
Variable re_search : string -> string -> bool.

Implicit Types (s : string) (f : @client Net) (args : Args Delay)
  (w : world Net).

Abbreviation translate_text' := (translate_text re_search).

Lemma translation_of_cases f w core t :
  translation_of f w core = Some t ->
  (cache_db w !! core = Some t /\ t <> "")
  \/ (truthy (cache_db w !! core) = false
      /\ exists n', f core (net w) = (Ok t, n')).
Proof.
  unfold translation_of.
  destruct (truthy (cache_db w !! core)) eqn:Hc.
  - apply truthy_some in Hc as (v & Hv & Hne). rewrite Hv.
    intros [= <-]. by left.
  - destruct (f core (net w)) as [[t'|e] n'] eqn:Hf; simpl; [| done].
    intros [= <-]. right. eauto.
Qed.

(** C2. For every candidate whose trimmed core is non-empty (and which the
    exclusion pattern does not match), when there is a translation [t]
    for the core, from the cache or from the translation function, the
    result of [translate_text] is the candidate's leading whitespace, then
    [t], then its trailing whitespace. *)
Theorem translate_text_splices s f args w t :
  PyStr.strip s <> "" ->
  skip_match re_search args (PyStr.strip s) = false ->
  translation_of f w (PyStr.strip s) = Some t ->
  (translate_text' s f args w).1
  = Ok (PyStr.leading_ws s +:+ t +:+ PyStr.trailing_ws s).
Proof.
  intros Hs Hk Ht.
  apply translation_of_cases in Ht as [[Hv Hne]|[Hc [n' Hf]]].
  - erewrite translate_text_hit by done. simpl.
    by rewrite replace_strip.
  - erewrite translate_text_miss_ok by done. simpl.
    by rewrite replace_strip.
Qed.

(** C3. A candidate that is empty or all whitespace after trimming, or
    whose trimmed form matches the configured exclusion pattern, is
    returned unchanged, and the world is as it was: the translation
    function has not been called, the cache has not been touched. *)
Theorem translate_text_skips s f args w :
  PyStr.strip s = ""
  \/ (exists p, skip_regex args = Some p /\ p <> ""
                /\ re_search p (PyStr.strip s) = true) ->
  translate_text' s f args w = (Ok s, w)
  /\ calls (translate_text' s f args w).2 = calls w.
Proof.
  intros H.
  assert (translate_text' s f args w = (Ok s, w)) as E.
  { destruct H as [H|(p & Hp & Hne & Hm)].
    - by apply translate_text_blank.
    - apply translate_text_skip. unfold skip_match. rewrite Hp.
      by destruct p. }
  by rewrite E.
Qed.

(** A candidate for which the translation function raises.  The exception
    does not leave [translate_text]: the error is written to the diagnostic
    stream, the candidate is returned as it was, and the cache is as it
    was. *)
Lemma translate_text_fail_safe s f args w msg n' :
  PyStr.strip s <> "" ->
  skip_match re_search args (PyStr.strip s) = false ->
  truthy (cache_db w !! PyStr.strip s) = false ->
  f (PyStr.strip s) (net w) = (Raise (Exception msg), n') ->
  let w' := (translate_text' s f args w).2 in
  (translate_text' s f args w).1 = Ok s
  /\ stderr w' = stderr w ++ ["Translate error: " +:+ msg]
  /\ cache_db w' = cache_db w
  /\ fs w' = fs w.
Proof.
  intros Hs Hk Hc Hf. erewrite translate_text_miss_raise by done. done.
Qed.

(** C10. When the cache holds the empty string for the candidate's trimmed
    key, the lookup counts as a miss: the translation function is called
    again with that key, and when it returns [t] the entry is overwritten
    with [t] and [t] is spliced into the candidate. *)
Theorem empty_cached_is_miss s f args w :
  PyStr.strip s <> "" ->
  skip_match re_search args (PyStr.strip s) = false ->
  cache_db w !! PyStr.strip s = Some "" ->
  let r := translate_text' s f args w in
  calls r.2 = calls w ++ [PyStr.strip s]
  /\ net r.2 = (f (PyStr.strip s) (net w)).2
  /\ match (f (PyStr.strip s) (net w)).1 with
     | Ok t =>
         r.1 = Ok (PyStr.replace s (PyStr.strip s) t)
         /\ cache_db r.2 = <[PyStr.strip s := t]> (cache_db w)
         /\ TMCache.get (cache_db r.2) (PyStr.strip s) = Some t
     | Raise _ => r.1 = Ok s /\ cache_db r.2 = cache_db w
     end.
Proof.
  intros Hs Hk Hc.
  assert (truthy (cache_db w !! PyStr.strip s) = false) as Hm
    by (by rewrite Hc).
  destruct (f (PyStr.strip s) (net w)) as [[t|[msg]] n'] eqn:Hf; simpl.
  - erewrite translate_text_miss_ok by done. simpl.
    repeat split; try done. unfold TMCache.get. apply lookup_insert_eq.
  - erewrite translate_text_miss_raise by done. done.
Qed.

End PolicyClaims.

(** * The tree walk *)

Section WalkFacts.

Context {Net Delay : Type}.
Variable re_search : string -> string -> bool.

Implicit Types (s : string) (f : @client Net) (args : Args Delay)
  (w : world Net) (o : pyobj).

(** Induction on documents, with the hypothesis for every item of a dict
    and every element of a list. *)
Lemma pyobj_ind' (P : pyobj -> Prop)
  (Hd : forall items, Forall (fun kv => P kv.2) items -> P (PDict items))
  (Hl : forall xs, Forall P xs -> P (PList xs))
  (Hs : forall s, P (PStr s))
  (Ha : forall a, P (PAtom a)) :
  forall o, P o.
Proof.
  fix IH 1. intros [items|xs|s|a].
  - apply Hd. induction items as [|[k v] r IHr]; constructor.
    + apply IH.
    + apply IHr.
  - apply Hl. induction xs as [|x r IHr]; constructor.
    + apply IH.
    + apply IHr.
  - apply Hs.
  - apply Ha.
Qed.


Lemma mapM_nil {A B} (g : A -> @M Net B) w : mapM g [] w = (Ok [], w).
Proof. reflexivity. Qed.

Lemma mapM_cons {A B} (g : A -> @M Net B) x l w y w1 ys w2 :
  g x w = (Ok y, w1) -> mapM g l w1 = (Ok ys, w2) ->
  mapM g (x :: l) w = (Ok (y :: ys), w2).
Proof.
  intros Hx Hl. simpl. unfold bind at 1. rewrite Hx.
  unfold bind at 1. fold (mapM g). rewrite Hl. done.
Qed.


(** A loop whose body computes [h] and keeps the invariant [Inv]. *)
Lemma mapM_inv {A B} (g : A -> @M Net B) (h : A -> B)
    (Inv : world Net -> Prop) (l : list A) :
  Forall (fun x => forall w, Inv w ->
            exists w', g x w = (Ok (h x), w') /\ Inv w') l ->
  forall w, Inv w ->
    exists w', mapM g l w = (Ok (map h l), w') /\ Inv w'.
Proof.
  induction 1 as [|x l Hx _ IH]; intros w Hw.
  - exists w. done.
  - destruct (Hx w Hw) as (w1 & Hg & Hw1).
    destruct (IH w1 Hw1) as (w2 & Hm & Hw2).
    exists w2. split; [| done]. by eapply mapM_cons.
Qed.



(** With a translation function that is a function [g] of the text alone
    and a cache that agrees with [g], [translate_text] computes
    [resolve]; the cache keeps agreeing with [g], and no file is
    touched. *)
Lemma translate_text_pure g s args w0 w :
  walk_inv g w0 w ->
  exists w',
    translate_text re_search s (pure_client g) args w
    = (Ok (resolve (skip_match re_search args) g s), w')
    /\ walk_inv g w0 w'.
Proof.
  intros (Hag & Hfs & Hwr). unfold resolve.
  destruct (decide (PyStr.strip s = "")) as [E|E].
  { rewrite translate_text_blank by done. by exists w. }
  destruct (skip_match re_search args (PyStr.strip s)) eqn:Hs.
  { rewrite translate_text_skip by done. by exists w. }
  destruct (truthy (cache_db w !! PyStr.strip s)) eqn:Hc.
  { apply truthy_some in Hc as (v & Hv & Hne).
    erewrite translate_text_hit by done.
    rewrite (Hag _ _ Hv Hne). by exists w. }
  destruct (g (PyStr.strip s)) as [t|[msg]] eqn:Hg.
  - erewrite translate_text_miss_ok; [| done..| by unfold pure_client; rewrite Hg].
    eexists. split; [done |]. split; [| done]. simpl.
    intros k v Hk Hne. destruct (decide (PyStr.strip s = k)) as [<-|Hd].
    + rewrite lookup_insert_eq in Hk. congruence.
    + rewrite lookup_insert_ne in Hk by done. by apply Hag.
  - erewrite translate_text_miss_raise; [| done..| by unfold pure_client; rewrite Hg].
    eexists. by split.
Qed.

Lemma walk_pure g args w0 o :
  forall w, walk_inv g w0 w ->
    exists w',
      walk re_search (pure_client g) args o w
      = (Ok (map_leaves (resolve (skip_match re_search args) g) o), w')
      /\ walk_inv g w0 w'.
Proof.
  induction o as [items IH|xs IH|s|a] using pyobj_ind'; intros w Hw.
  - opose proof (mapM_inv
      (fun '(k, v) =>
         v' <~ walk re_search (pure_client g) args v ;; ret (k, v'))
      (fun '(k, v) =>
         (k, map_leaves (resolve (skip_match re_search args) g) v))
      (walk_inv g w0) items _ w Hw) as (w' & Hm & Hw').
    { eapply Forall_impl; [exact IH |]. intros [k v] Hv w1 Hw1. simpl in *.
      destruct (Hv w1 Hw1) as (w2 & Hr & Hw2).
      exists w2. unfold bind. by rewrite Hr. }
    exists w'. simpl. unfold bind at 1. by rewrite Hm.
  - opose proof (mapM_inv (walk re_search (pure_client g) args)
      (map_leaves (resolve (skip_match re_search args) g))
      (walk_inv g w0) xs _ w Hw) as (w' & Hm & Hw').
    { eapply Forall_impl; [exact IH |]. intros x Hx w1 Hw1. by apply Hx. }
    exists w'. simpl. unfold bind at 1. by rewrite Hm.
  - destruct (translate_text_pure g s args w0 w Hw) as (w' & Ht & Hw').
    exists w'. simpl. unfold bind. by rewrite Ht.
  - by exists w.
Qed.

End WalkFacts.

(** * The format adapters: tree-structured documents *)

Section TreeClaims.

Context {Net Delay : Type}.
Variable re_search : string -> string -> bool.
Variable json_load : string -> result pyobj.
Variable yaml_safe_load : string -> result pyobj.
Variable yaml_emit : pyobj -> string.

Implicit Types (s : string) (f : @client Net) (args : Args Delay)
  (w : world Net) (o : pyobj).


Lemma map_leaves_leafwise (R : string -> string -> Prop)
    (h : string -> string) o :
  (forall s, R s (h s)) -> leafwise R o (map_leaves h o).
Proof.
  intros Hh. induction o as [items IH|xs IH|s|a] using pyobj_ind'; simpl.
  - constructor. induction IH as [|[k v] r Hv _ IHr]; constructor; auto.
  - constructor. induction IH as [|x r Hx _ IHr]; constructor; auto.
  - by constructor.
  - constructor.
Qed.


Lemma resolve_identity (skip : string -> bool) s : resolve skip Ok s = s.
Proof.
  unfold resolve. destruct (decide _); [done |].
  destruct (skip _); [done |]. apply replace_same.
Qed.


Lemma translate_json_ok path text data f args w new w1 :
  fs w !! path = Some text -> json_load text = Ok data ->
  walk re_search f args data w = (Ok new, w1) ->
  translate_json re_search json_load path f args w
  = (Ok tt,
     World (cache_db w1) (net w1) (calls w1) (stderr w1)
           (<[path := PyJson.dumps 0 new]> (fs w1)) (written w1 ++ [path])).
Proof.
  intros Hfs Hload Hwalk. unfold translate_json, bind, read_text, lift.
  by rewrite Hfs, Hload, Hwalk.
Qed.


(** C1. (1) For every candidate, when the call of the translation function
    raises, [translate_text] returns the candidate unchanged and does not
    raise; the error is written to the diagnostic stream and the cache is
    left as it was.  (2) Hence a file is written in full whatever the
    translation function raises for: in the document written, every string
    the function raises for is the original one and every other candidate
    is translated in place (so with five strings and one failure, one is
    unchanged and four are translated).  Shown for a JSON file and a cache
    that holds nothing the function would not return. *)
Theorem translation_failure_is_contained :
  (forall s f args w msg n',
      PyStr.strip s <> "" ->
      skip_match re_search args (PyStr.strip s) = false ->
      truthy (cache_db w !! PyStr.strip s) = false ->
      f (PyStr.strip s) (net w) = (Raise (Exception msg), n') ->
      let r := translate_text re_search s f args w in
      r.1 = Ok s
      /\ stderr r.2 = stderr w ++ ["Translate error: " +:+ msg]
      /\ cache_db r.2 = cache_db w)
  /\ (forall path text data g args w,
        fs w !! path = Some text -> json_load text = Ok data ->
        cache_agrees g (cache_db w) ->
        exists new w',
          translate_json re_search json_load path (pure_client g) args w
          = (Ok tt, w')
          /\ fs w' !! path = Some (PyJson.dumps 0 new)
          /\ leafwise
               (fun s s' =>
                  (forall e, g (PyStr.strip s) = Raise e -> s' = s)
                  /\ (forall t, PyStr.strip s <> "" ->
                        skip_match re_search args (PyStr.strip s) = false ->
                        g (PyStr.strip s) = Ok t ->
                        s' = PyStr.leading_ws s +:+ t
                             +:+ PyStr.trailing_ws s))
               data new).
Proof.
  split.
  - intros s f args w msg n' Hs Hk Hc Hf.
    destruct (translate_text_fail_safe re_search s f args w msg n' Hs Hk Hc Hf)
      as (H1 & H2 & H3 & _).
    done.
  - intros path text data g args w Hfs Hload Hag.
    destruct (walk_pure re_search g args w data w) as (w1 & Hw & Hinv);
      [done |].
    eexists _, _. split; [by eapply translate_json_ok |].
    split; [apply lookup_insert_eq |].
    apply map_leaves_leafwise. intros s. unfold resolve. split.
    + intros e He. rewrite He. destruct (decide _); [done |].
      by destruct (skip_match _ _ _).
    + intros t Hs Hk Ht. rewrite Ht, Hk, decide_False by done.
      by apply replace_strip.
Qed.






End TreeClaims.

(** * The format adapters: key=value lines *)

Section LineClaims.

Context {Net Delay : Type}.
Variable re_search : string -> string -> bool.

Implicit Types (s line : string) (f : @client Net) (args : Args Delay)
  (w : world Net).

Lemma split1_spec (c : ascii) line :
  PyStr.contains c line = true ->
  exists key val,
    PyStr.split1 c line = (key, Some val)
    /\ line = key +:+ String c val
    /\ PyStr.contains c key = false.
Proof.
  induction line as [|d r IH]; simpl; [done |].
  destruct (Ascii.eqb c d) eqn:E; simpl.
  - apply Ascii.eqb_eq in E as <-. intros _. by exists "", r.
  - intros H. destruct (IH H) as (key & val & Hs & Hl & Hk).
    exists (String d key), val. rewrite Hs. simpl. rewrite E, Hk.
    split; [done |]. split; [| done]. rewrite sapp_cons. by f_equal.
Qed.


(** C4, as the code has it.  A line of a properties file is emitted
    verbatim when its trimmed form starts with [#] or when it holds no
    [=]; otherwise it splits at its first [=] into a key and a value, the
    value without its line end goes through [translate_text], and the
    output line is the key, [=], the result, and a newline.  So
    ["greeting=Hello"] with translation ["Hola"] gives
    ["greeting=Hola\n"], and ["# note"] and a line without [=] are
    unchanged. *)
Theorem properties_line_spec :
  (forall line f args w,
      PyStr.startswith (PyStr.strip line) "#" = true
      \/ PyStr.contains "="%char line = false ->
      properties_line re_search line f args w = (Ok line, w))
  /\ (forall line f args w,
        PyStr.startswith (PyStr.strip line) "#" = false ->
        PyStr.contains "="%char line = true ->
        exists key val,
          line = key +:+ "=" +:+ val
          /\ PyStr.contains "="%char key = false
          /\ properties_line re_search line f args w
             = (newval <~ translate_text re_search (PyStr.rstrip_nl val)
                            f args ;;
                ret (key +:+ "=" +:+ newval +:+ String PyStr.newline "")) w)
  /\ (forall f args w n',
        skip_regex args = None ->
        truthy (cache_db w !! "Hello") = false ->
        f "Hello" (net w) = (Ok "Hola", n') ->
        (properties_line re_search "greeting=Hello" f args w).1
        = Ok ("greeting=Hola" +:+ String PyStr.newline ""))
  /\ (forall f args w,
        properties_line re_search "# note" f args w = (Ok "# note", w)
        /\ properties_line re_search "no separator here" f args w
           = (Ok "no separator here", w)).
Proof.
  split; [| split; [| split]].
  - intros line f args w H. unfold properties_line.
    destruct H as [-> | ->]; [done |]. simpl. by rewrite orb_true_r.
  - intros line f args w Hc He.
    destruct (split1_spec _ _ He) as (key & val & Hs & Hl & Hk).
    exists key, val. split; [done |]. split; [done |].
    unfold properties_line. rewrite Hc, He, Hs. done.
  - intros f args w n' Hnone Hmiss Hf.
    change (properties_line re_search "greeting=Hello" f args w)
      with ((newval <~ translate_text re_search "Hello" f args ;;
             ret ("greeting" +:+ "=" +:+ newval
                  +:+ String PyStr.newline "")) w).
    unfold bind.
    erewrite (translate_text_miss_ok re_search "Hello" f args w "Hola" n');
      try done.
    unfold skip_match. by rewrite Hnone.
  - intros f args w. done.
Qed.

End LineClaims.

(** * The format adapters: translation catalogs *)

Section CatalogClaims.

Context {Net Delay X : Type}.
Variable re_search : string -> string -> bool.
Variable pofile : string -> result (list (POEntry X)).
Variable po_text : list (POEntry X) -> string.

Implicit Types (s : string) (f : @client Net) (args : Args Delay)
  (w : world Net) (e : POEntry X).

(** [translate_text] touches no file. *)
Lemma translate_text_frame s f args w :
  exists r w',
    translate_text re_search s f args w = (Ok r, w')
    /\ fs w' = fs w /\ written w' = written w.
Proof.
  destruct (decide (PyStr.strip s = "")) as [E|E].
  { rewrite translate_text_blank by done. by eexists _, _. }
  destruct (skip_match re_search args (PyStr.strip s)) eqn:Hs.
  { rewrite translate_text_skip by done. by eexists _, _. }
  destruct (truthy (cache_db w !! PyStr.strip s)) eqn:Hc.
  { apply truthy_some in Hc as (v & Hv & Hne).
    erewrite translate_text_hit by done. by eexists _, _. }
  destruct (f (PyStr.strip s) (net w)) as [[t|[msg]] n'] eqn:Hf.
  - erewrite translate_text_miss_ok by done. by eexists _, _.
  - erewrite translate_text_miss_raise by done. by eexists _, _.
Qed.

Lemma po_candidate_true e :
  po_candidate e = true <->
  PyStr.strip (msgid e) <> "" /\ PyStr.strip (msgstr e) = "".
Proof.
  unfold po_candidate.
  rewrite andb_true_iff, !bool_decide_eq_true. done.
Qed.

Abbreviation po_step := (po_step re_search).

Lemma po_loop_spec (entries : list (POEntry X)) f args :
  forall changed w,
    exists out w',
      po_loop re_search entries changed f args w
      = (Ok (out, changed || existsb po_candidate entries), w')
      /\ Forall2 (po_step f args) entries out
      /\ fs w' = fs w /\ written w' = written w
      /\ (existsb po_candidate entries = false -> out = entries /\ w' = w).
Proof.
  induction entries as [|e r IH]; intros changed w; simpl.
  - exists [], w. rewrite orb_false_r. repeat split; constructor.
  - destruct (decide (PyStr.strip (msgid e) = "")) as [Hid|Hid].
    { assert (po_candidate e = false) as Hc.
      { apply not_true_iff_false. rewrite po_candidate_true. tauto. }
      destruct (IH changed w) as (out & w' & Hl & Hf & Hfs & Hwr & Hno).
      exists (e :: out), w'. unfold bind. rewrite Hl, Hc. simpl.
      repeat split; try done.
      - constructor; [| done]. unfold po_step. by rewrite Hc.
      - f_equal. by apply Hno.
      - by apply Hno. }
    destruct (decide (PyStr.strip (msgstr e) = "")) as [Hstr|Hstr].
    + assert (po_candidate e = true) as Hc by (by apply po_candidate_true).
      destruct (translate_text_frame (msgid e) f args w)
        as (new & w1 & Ht & Hfs1 & Hwr1).
      destruct (IH true w1) as (out & w' & Hl & Hf & Hfs & Hwr & _).
      exists (MkPOEntry (msgid e) new (extra e) :: out), w'.
      unfold bind. rewrite Ht, Hl, Hc. simpl. rewrite orb_true_r.
      repeat split; try congruence.
      constructor; [| done]. unfold po_step. rewrite Hc. simpl.
      repeat split. exists w. by rewrite Ht.
    + assert (po_candidate e = false) as Hc.
      { apply not_true_iff_false. rewrite po_candidate_true. tauto. }
      destruct (IH changed w) as (out & w' & Hl & Hf & Hfs & Hwr & Hno).
      exists (e :: out), w'. unfold bind. rewrite Hl, Hc. simpl.
      repeat split; try done.
      * constructor; [| done]. unfold po_step. by rewrite Hc.
      * f_equal. by apply Hno.
      * by apply Hno.
Qed.

(** C7, as the code has it.  An entry is a candidate exactly when its id is
    not blank and its translation is blank; a candidate gets the result of
    [translate_text] on its id as its translation, every other entry (so
    every entry with a translation already there) is left as it is,
    whatever the translation function would return.  The file is written
    exactly when some entry is a candidate: with none, nothing at all
    happens; with one, the catalog with the new entries is written. *)
Theorem translate_po_spec path po f args w :
  pofile (default path (fs w !! path)) = Ok po ->
  exists out w',
    translate_po re_search pofile po_text path f args w = (Ok tt, w')
    /\ Forall2 (po_step f args) po out
    /\ (forall e, po_candidate e = true ->
          msgid e <> "" /\ PyStr.strip (msgstr e) = "")
    /\ (existsb po_candidate po = false -> out = po /\ w' = w)
    /\ (existsb po_candidate po = true ->
          fs w' !! path = Some (po_text out)
          /\ written w' = written w ++ [path]).
Proof.
  intros Hpo.
  destruct (po_loop_spec po f args false w)
    as (out & w1 & Hl & Hf & Hfs & Hwr & Hno).
  simpl in Hl.
  destruct (existsb po_candidate po) eqn:Hex.
  - eexists out, _. unfold translate_po, bind, po_source, lift. simpl.
    rewrite Hpo, Hl. simpl. split; [done |]. split; [done |].
    split; [| split; [done |]].
    + intros e [Hid Hstr]%po_candidate_true. split; [| done].
      intros E. by rewrite E in Hid.
    + intros _. simpl. split; [apply lookup_insert_eq | by rewrite Hwr].
  - destruct Hno as [-> ->]; [done |].
    exists po, w. unfold translate_po, bind, po_source, lift. simpl.
    rewrite Hpo, Hl. simpl. split; [done |]. split; [done |].
    split; [| split; [done | done]].
    intros e [Hid Hstr]%po_candidate_true. split; [| done].
    intros E. by rewrite E in Hid.
Qed.

End CatalogClaims.

(** * The translation function of [main] and the cache key *)

Section ProviderClaims.

Context {Net Delay : Type}.
Variable re_search : string -> string -> bool.
Variable deepl_post : list (string * string) -> Net -> result string * Net.
Variable sleep : Delay -> Net -> Net.

Implicit Types (s : string) (args : Args Delay) (w : world Net).

Abbreviation factory := (translate_func_factory deepl_post sleep).

(** C9. The cache key is the trimmed candidate and nothing else: when a
    candidate is translated under one configuration, the entry is stored
    under its trimmed text, and any candidate with the same trimmed text
    then gets that stored translation under any other configuration (other
    language codes included), without a call of the translation
    function. *)
Theorem cache_key_ignores_languages args1 args2 s1 s2 w t n' :
  PyStr.strip s1 <> "" ->
  PyStr.strip s2 = PyStr.strip s1 ->
  skip_match re_search args1 (PyStr.strip s1) = false ->
  skip_match re_search args2 (PyStr.strip s1) = false ->
  truthy (cache_db w !! PyStr.strip s1) = false ->
  factory args1 (PyStr.strip s1) (net w) = (Ok t, n') ->
  t <> "" ->
  let w1 := (translate_text re_search s1 (factory args1) args1 w).2 in
  cache_db w1 = <[PyStr.strip s1 := t]> (cache_db w)
  /\ translate_text re_search s2 (factory args2) args2 w1
     = (Ok (PyStr.leading_ws s2 +:+ t +:+ PyStr.trailing_ws s2), w1).
Proof.
  intros Hs1 Hs2 Hk1 Hk2 Hmiss Hf Ht.
  erewrite translate_text_miss_ok by done. simpl. split; [done |].
  erewrite translate_text_hit with (v := t); try done.
  - rewrite replace_strip by congruence. done.
  - congruence.
  - congruence.
  - simpl. rewrite Hs2. apply lookup_insert_eq.
Qed.

End ProviderClaims.

(** * Examples on concrete inputs *)

Example strip_example : PyStr.strip "  Hello World  " = "Hello World".
Proof. reflexivity. Qed.

Example replace_all_example : PyStr.replace "a-b-c" "-" "+=" = "a+=b+=c".
Proof. reflexivity. Qed.

Example replace_overlap_example : PyStr.replace "aaaa" "aa" "b" = "bb".
Proof. reflexivity. Qed.

Example replace_empty_example : PyStr.replace "abc" "" "-" = "-a-b-c-".
Proof. reflexivity. Qed.

Example split1_example :
  PyStr.split1 "="%char "k=v=w" = ("k", Some "v=w").
Proof. reflexivity. Qed.

(** Five strings, the translation function raises for the third: the file
    is written with that one unchanged and the other four translated. *)
Example five_strings_one_failure :
  let data := PList [PStr "a"; PStr " b"; PStr "c"; PStr "d "; PStr "e"] in
  let r := translate_json re_none (fun _ => Ok data) "en.json"
             (pure_client shout) args_en_ja (w_file "en.json" "") in
  r.1 = Ok tt
  /\ fs r.2 !! "en.json"
     = Some (PyJson.dumps 0
               (PList [PStr "A"; PStr " B"; PStr "c"; PStr "D "; PStr "E"]))
  /\ stderr r.2 = ["Translate error: quota exceeded"].
Proof. vm_compute. done. Qed.

(** * Instances of the theorems, and where the stated properties fail *)

(** [cache_put_get] at a concrete cache. *)
Lemma cache_put_get_witness :
  Forall (fun kv : string * string => kv.1 <> "Hello")
         [("World", "Monde"); ("Bye", "Salut")]
  /\ TMCache.get
       (put_all (TMCache.put ∅ "Hello" "Bonjour")
                [("World", "Monde"); ("Bye", "Salut")]) "Hello"
     = Some "Bonjour".
Proof.
  assert (Forall (fun kv : string * string => kv.1 <> "Hello")
                 [("World", "Monde"); ("Bye", "Salut")]) as H.
  { repeat constructor; simpl; discriminate. }
  split; [exact H |].
  exact (proj2 (cache_put_get ∅ "Hello" "Bonjour" _ H)).
Defined.

(** [translate_text_splices] at the candidate ["  Hello World  "]. *)
Lemma translate_text_splices_witness :
  PyStr.strip "  Hello World  " <> ""
  /\ skip_match re_none args_en_ja (PyStr.strip "  Hello World  ") = false
  /\ translation_of (pure_client (fun _ => Ok "Bonjour")) w_empty
       (PyStr.strip "  Hello World  ") = Some "Bonjour"
  /\ (translate_text re_none "  Hello World  "
        (pure_client (fun _ => Ok "Bonjour")) args_en_ja w_empty).1
     = Ok "  Bonjour  ".
Proof.
  assert (PyStr.strip "  Hello World  " <> "") as H1 by discriminate.
  assert (skip_match re_none args_en_ja (PyStr.strip "  Hello World  ")
          = false) as H2 by reflexivity.
  assert (translation_of (pure_client (fun _ => Ok "Bonjour")) w_empty
            (PyStr.strip "  Hello World  ") = Some "Bonjour") as H3
    by reflexivity.
  split; [exact H1 |]. split; [exact H2 |]. split; [exact H3 |].
  exact (translate_text_splices re_none "  Hello World  "
           (pure_client (fun _ => Ok "Bonjour")) args_en_ja w_empty "Bonjour"
           H1 H2 H3).
Defined.

(** [translate_text_skips] at a candidate the exclusion pattern matches. *)
Lemma translate_text_skips_witness :
  (exists p, skip_regex args_skip_numbers = Some p /\ p <> ""
             /\ re_numbers p (PyStr.strip " 42 ") = true)
  /\ translate_text re_numbers " 42 " (pure_client shout)
       args_skip_numbers w_empty = (Ok " 42 ", w_empty).
Proof.
  assert (exists p, skip_regex args_skip_numbers = Some p /\ p <> ""
                    /\ re_numbers p (PyStr.strip " 42 ") = true) as H.
  { exists "^[0-9]+$". split; [reflexivity |]. split; [discriminate |].
    reflexivity. }
  split; [exact H |].
  exact (proj1 (translate_text_skips re_numbers " 42 " (pure_client shout)
                  args_skip_numbers w_empty (or_intror H))).
Defined.

(** [empty_cached_is_miss] at a cache that holds the empty string for
    ["Hello"]. *)
Lemma empty_cached_is_miss_witness :
  let w := World {[ "Hello" := "" ]} tt [] [] ∅ [] in
  let r := translate_text re_none "Hello " (pure_client shout) args_en_ja w in
  cache_db w !! PyStr.strip "Hello " = Some ""
  /\ calls r.2 = ["Hello"]
  /\ r.1 = Ok "HELLO "
  /\ TMCache.get (cache_db r.2) "Hello" = Some "HELLO".
Proof.
  intros w r.
  assert (PyStr.strip "Hello " <> "") as H1 by discriminate.
  assert (skip_match re_none args_en_ja (PyStr.strip "Hello ") = false)
    as H2 by reflexivity.
  assert (cache_db w !! PyStr.strip "Hello " = Some "") as H3 by reflexivity.
  split; [exact H3 |].
  destruct (empty_cached_is_miss re_none "Hello " (pure_client shout)
              args_en_ja w H1 H2 H3) as (Hc & _ & Hr & _ & Hg).
  split; [exact Hc |]. split; [exact Hr | exact Hg].
Defined.

(** [translation_failure_is_contained] at a candidate the translation
    function raises for, and at a file of five strings. *)
Lemma translation_failure_is_contained_witness :
  (let r := translate_text re_none " c " (pure_client shout)
              args_en_ja w_empty in
   r.1 = Ok " c "
   /\ stderr r.2 = ["Translate error: quota exceeded"]
   /\ cache_db r.2 = ∅)
  /\ (let data :=
        PList [PStr "a"; PStr " b"; PStr "c"; PStr "d "; PStr "e"] in
      exists new w',
        translate_json re_none (fun _ => Ok data) "en.json"
          (pure_client shout) args_en_ja (w_file "en.json" "")
        = (Ok tt, w')
        /\ fs w' !! "en.json" = Some (PyJson.dumps 0 new)
        /\ leafwise
             (fun s s' =>
                (forall e, shout (PyStr.strip s) = Raise e -> s' = s)
            /\ (forall t, PyStr.strip s <> "" ->
                  skip_match re_none args_en_ja (PyStr.strip s) = false ->
                  shout (PyStr.strip s) = Ok t ->
                      s' = PyStr.leading_ws s +:+ t +:+ PyStr.trailing_ws s))
             data new).
Proof.
  split.
  - refine (proj1 (translation_failure_is_contained re_none
                     (fun _ => Ok (PList [])))
                  " c " (pure_client shout) args_en_ja w_empty
                  "quota exceeded" tt _ _ _ _);
      [discriminate | reflexivity | reflexivity | reflexivity].
  - intros data.
    refine (proj2 (translation_failure_is_contained re_none
                     (fun _ => Ok data))
                  "en.json" "" data shout args_en_ja (w_file "en.json" "")
                _ _ _);
    [reflexivity | reflexivity |].
    intros k v Hk. simpl in Hk. rewrite lookup_empty in Hk. discriminate.
Defined.

(** [cache_key_ignores_languages]: a translation cached on the way to
    Japanese is returned on the way to French. *)
Lemma cache_key_ignores_languages_witness :
  let f1 := translate_func_factory echo_post (fun _ n => n) args_en_ja in
  let f2 := translate_func_factory echo_post (fun _ n => n) args_en_fr in
  let w1 := (translate_text re_none " Hello" f1 args_en_ja w_empty).2 in
  f1 "Hello" tt = (Ok "Hello@JA", tt)
  /\ f2 "Hello" tt = (Ok "Hello@FR", tt)
  /\ cache_db w1 = {[ "Hello" := "Hello@JA" ]}
  /\ translate_text re_none "Hello  " f2 args_en_fr w1
     = (Ok "Hello@JA  ", w1).
Proof.
  intros f1 f2 w1.
  split; [reflexivity |]. split; [reflexivity |].
  refine (cache_key_ignores_languages re_none echo_post (fun _ n => n)
            args_en_ja args_en_fr " Hello" "Hello  " w_empty "Hello@JA" tt
            _ _ _ _ _ _ _);
    [discriminate | reflexivity | reflexivity | reflexivity | reflexivity
    | reflexivity | discriminate].
Defined.

(** An indented comment that holds [=]: the line does not start with [#] and
    has a separator, yet it is emitted verbatim, not as its key, the
    translated value and a newline. *)
Lemma properties_indented_comment_verbatim :
  PyStr.startswith "  #a=Hello" "#" = false
  /\ PyStr.contains "="%char "  #a=Hello" = true
  /\ PyStr.split1 "="%char "  #a=Hello" = ("  #a", Some "Hello")
  /\ (translate_text re_none "Hello" (pure_client (fun _ => Ok "Hola"))
        args_en_ja w_empty).1 = Ok "Hola"
  /\ (properties_line re_none "  #a=Hello" (pure_client (fun _ => Ok "Hola"))
        args_en_ja w_empty).1 = Ok "  #a=Hello"
  /\ (properties_line re_none "  #a=Hello" (pure_client (fun _ => Ok "Hola"))
        args_en_ja w_empty).1
     <> Ok ("  #a=Hola" +:+ String PyStr.newline "").
Proof. repeat split; try reflexivity. discriminate. Qed.

(** [properties_line_spec] at an indented comment and at
    ["greeting=Hello"]. *)
Lemma properties_line_spec_witness :
  (PyStr.startswith (PyStr.strip "  #a=Hello") "#" = true
   /\ properties_line re_none "  #a=Hello" (pure_client (fun _ => Ok "Hola"))
        args_en_ja w_empty = (Ok "  #a=Hello", w_empty))
  /\ (properties_line re_none "greeting=Hello"
        (pure_client (fun _ => Ok "Hola")) args_en_ja w_empty).1
     = Ok ("greeting=Hola" +:+ String PyStr.newline "").
Proof.
  split.
  - split; [reflexivity |].
    refine (proj1 (properties_line_spec re_none) "  #a=Hello"
              (pure_client (fun _ => Ok "Hola")) args_en_ja w_empty
              (or_introl _)).
    reflexivity.
  - refine (proj1 (proj2 (proj2 (properties_line_spec re_none)))
              (pure_client (fun _ => Ok "Hola")) args_en_ja w_empty tt
              _ _ _); reflexivity.
Defined.



(** A catalog whose only candidate gets an empty translation: no entry is
    different after the loop, and the file is written all the same. *)
Lemma po_rewritten_without_change :
  let po := [MkPOEntry "a" "" tt] in
  let f : @client unit := pure_client (fun _ => Ok "") in
  (po_loop re_none po false f args_en_ja (w_file "m.po" "")).1
  = Ok (po, true)
  /\ written (translate_po re_none (fun _ => Ok po) (fun _ => "") "m.po"
                f args_en_ja (w_file "m.po" "")).2 = ["m.po"].
Proof. split; reflexivity. Qed.

(** [translate_po_spec] at a catalog with one translated entry and one that
    is not. *)
Lemma translate_po_spec_witness :
  let po := [MkPOEntry "yes" "oui" tt; MkPOEntry "no" " " tt] in
  let w := w_file "m.po" "" in
  exists out w',
    translate_po re_none (fun _ => Ok po) (fun _ => "") "m.po"
      (pure_client shout) args_en_ja w = (Ok tt, w')
    /\ Forall2 (po_step (Net := unit) re_none (pure_client shout) args_en_ja)
         po out
    /\ written w' = ["m.po"].
Proof.
  intros po w.
  destruct (translate_po_spec re_none (fun _ => Ok po) (fun _ => "") "m.po"
              po (pure_client shout) args_en_ja w eq_refl)
    as (out & w' & Hrun & Hstep & _ & _ & Hwr).
  exists out, w'. split; [exact Hrun |]. split; [exact Hstep |].
  exact (proj2 (Hwr eq_refl)).
Defined.

(** * More about [translate_text]: what one call can change *)

Section Footprint.

Context {Net Delay : Type}.
Variable re_search : string -> string -> bool.

Implicit Types (s : string) (f : @client Net) (args : Args Delay)
  (w : world Net).

(** The three ways a call of [translate_text] ends: nothing happened (blank,
    excluded or cached); the translation function answered and the answer was
    stored; the translation function raised and the error was logged. *)
Lemma translate_text_cases s f args w :
  (exists r, translate_text re_search s f args w = (Ok r, w))
  \/ (exists t n',
        truthy (cache_db w !! PyStr.strip s) = false
        /\ f (PyStr.strip s) (net w) = (Ok t, n')
        /\ translate_text re_search s f args w
           = (Ok (PyStr.replace s (PyStr.strip s) t),
              World (<[PyStr.strip s := t]> (cache_db w)) n'
                    (calls w ++ [PyStr.strip s]) (stderr w) (fs w)
                    (written w)))
  \/ (exists msg n',
        truthy (cache_db w !! PyStr.strip s) = false
        /\ f (PyStr.strip s) (net w) = (Raise (Exception msg), n')
        /\ translate_text re_search s f args w
           = (Ok s,
              World (cache_db w) n' (calls w ++ [PyStr.strip s])
                    (stderr w ++ ["Translate error: " +:+ msg]) (fs w)
                    (written w))).
Proof.
  destruct (decide (PyStr.strip s = "")) as [E|E].
  { left. rewrite translate_text_blank by done. eauto. }
  destruct (skip_match re_search args (PyStr.strip s)) eqn:Hs.
  { left. rewrite translate_text_skip by done. eauto. }
  destruct (truthy (cache_db w !! PyStr.strip s)) eqn:Hc.
  { left. apply truthy_some in Hc as (v & Hv & Hne).
    erewrite translate_text_hit by done. eauto. }
  destruct (f (PyStr.strip s) (net w)) as [[t|[msg]] n'] eqn:Hf.
  - right. left. exists t, n'. split; [done |]. split; [done |].
    by apply translate_text_miss_ok.
  - right. right. exists msg, n'. split; [done |]. split; [done |].
    by apply translate_text_miss_raise.
Qed.


End Footprint.

(** * What a whole walk keeps *)

Section WalkInvariants.

Context {Net Delay : Type}.
Variable re_search : string -> string -> bool.

Implicit Types (s : string) (f : @client Net) (args : Args Delay)
  (w : world Net) (o : pyobj).

(** A loop whose body always returns and keeps [Inv]. *)
Lemma mapM_keeps {A B} (g : A -> @M Net B) (Inv : world Net -> Prop)
    (l : list A) :
  Forall (fun x => forall w, Inv w ->
            exists y w', g x w = (Ok y, w') /\ Inv w') l ->
  forall w, Inv w ->
    exists ys w', mapM g l w = (Ok ys, w') /\ Inv w'.
Proof.
  induction 1 as [|x l Hx _ IH]; intros w Hw.
  - exists [], w. done.
  - destruct (Hx w Hw) as (y & w1 & Hg & Hw1).
    destruct (IH w1 Hw1) as (ys & w2 & Hm & Hw2).
    exists (y :: ys), w2. split; [| done]. by eapply mapM_cons.
Qed.

(** What every call of [translate_text] keeps, the walk keeps. *)
Lemma walk_keeps f args (Inv : world Net -> Prop) :
  (forall s w, Inv w -> Inv (translate_text re_search s f args w).2) ->
  forall o w, Inv w ->
    exists o' w', walk re_search f args o w = (Ok o', w') /\ Inv w'.
Proof.
  intros Hstep o.
  induction o as [items IH|xs IH|s|a] using pyobj_ind'; intros w Hw.
  - opose proof (mapM_keeps
      (fun '(k, v) => v' <~ walk re_search f args v ;; ret (k, v'))
      Inv items _ w Hw) as (ys & w' & Hm & Hw').
    { eapply Forall_impl; [exact IH |]. intros [k v] Hv w1 Hw1. simpl in *.
      destruct (Hv w1 Hw1) as (v' & w2 & Hr & Hw2).
      exists (k, v'), w2. unfold bind. by rewrite Hr. }
    exists (PDict ys), w'. simpl. unfold bind at 1. by rewrite Hm.
  - opose proof (mapM_keeps (walk re_search f args) Inv xs _ w Hw)
      as (ys & w' & Hm & Hw').
    { eapply Forall_impl; [exact IH |]. intros x Hx w1 Hw1. by apply Hx. }
    exists (PList ys), w'. simpl. unfold bind at 1. by rewrite Hm.
  - destruct (translate_text_total re_search s f args w) as (r & w' & Ht).
    exists (PStr r), w'. simpl. unfold bind. rewrite Ht.
    split; [done |]. specialize (Hstep s w Hw). by rewrite Ht in Hstep.
  - by exists (PAtom a), w.
Qed.


Lemma occurrences_app (k : string) (l1 l2 : list string) :
  occurrences k (l1 ++ l2) = occurrences k l1 + occurrences k l2.
Proof. unfold occurrences. by rewrite filter_app, length_app. Qed.

Lemma occurrences_one (k c : string) :
  occurrences k [c] = if decide (c = k) then 1 else 0.
Proof.
  unfold occurrences. rewrite filter_cons, filter_nil.
  by destruct (decide (c = k)).
Qed.

(** X3. A text the translation function answers with a non-empty translation is
    sent to it at most once during a walk, however often it occurs in the
    document, and not at all when the cache already holds a non-empty
    translation for it. *)
Theorem walk_sends_once (g : string -> result string) args o w k t :
  g k = Ok t -> t <> "" ->
  exists o' w' cs,
    walk re_search (pure_client g) args o w = (Ok o', w')
    /\ calls w' = calls w ++ cs
    /\ occurrences k cs <= 1
    /\ (truthy (cache_db w !! k) = true -> occurrences k cs = 0).
Proof.
  intros Hg Ht.
    opose proof (walk_keeps (pure_client g) args
    (fun w' => exists cs,
       calls w' = calls w ++ cs
       /\ occurrences k cs <= 1
       /\ (truthy (cache_db w !! k) = true -> occurrences k cs = 0)
       /\ (truthy (cache_db w !! k) = true \/ occurrences k cs = 1 ->
           truthy (cache_db w' !! k) = true)) _ o w _)
    as (o' & w' & Hw & cs & Hc & Hle & Hz & _).
  - intros s w1 (cs & Hc & Hle & Hz & Hk).
    destruct (translate_text_cases re_search s (pure_client g) args w1)
      as [[r E]|[(t' & n' & Hm & Hf & E)|(msg & n' & Hm & Hf & E)]];
      rewrite E; simpl.
    + exists cs. done.
    + exists (cs ++ [PyStr.strip s]). rewrite Hc, <- List.app_assoc.
      rewrite occurrences_app, occurrences_one.
            destruct (decide (PyStr.strip s = k)) as [Ek|Hd].
      * rewrite Ek in *.
        assert (occurrences k cs = 0) as H0.
        { destruct (decide (occurrences k cs = 0)) as [|Hn]; [done |].
          rewrite Hk in Hm; [done |]. right. lia. }
        assert (truthy (cache_db w !! k) = false) as Hw0.
        { destruct (truthy (cache_db w !! k)) eqn:Hw0; [| done].
          rewrite Hk in Hm; [done |]. by left. }
        rewrite H0. repeat split; [lia | by rewrite Hw0 |].
        intros _. rewrite lookup_insert_eq.
        unfold pure_client in Hf. rewrite Hg in Hf.
        injection Hf as <- _. by destruct t.
      * rewrite Nat.add_0_r. repeat split; [done | done |].
        rewrite lookup_insert_ne by done. done.
    + exists (cs ++ [PyStr.strip s]). rewrite Hc, <- List.app_assoc.
      rewrite occurrences_app, occurrences_one.
            destruct (decide (PyStr.strip s = k)) as [Ek|Hd].
      * rewrite Ek in *.
        unfold pure_client in Hf. rewrite Hg in Hf. discriminate.
      * rewrite Nat.add_0_r. done.
    - exists []. rewrite app_nil_r. repeat split; auto.
    intros [H|H]; [done |]. unfold occurrences in H. simpl in H. lia.
  - exists o', w', cs. done.
Qed.

End WalkInvariants.

(** * The markup adapter *)

Section MarkupFacts.

Context {Net Delay : Type}.
Variable re_search : string -> string -> bool.

Implicit Types (s : string) (f : @client Net) (args : Args Delay)
  (w : world Net) (elem : element).

(** Induction on elements, with the hypothesis for every child. *)
Lemma element_ind' (P : element -> Prop)
  (H : forall tag attrib text tail children,
         Forall P children -> P (Element tag attrib text tail children)) :
  forall elem, P elem.
Proof.
  fix IH 1. intros [tag attrib text tail children]. apply H.
  induction children as [|c r IHr]; constructor.
  - apply IH.
  - apply IHr.
Qed.



Lemma xml_walk_identity args w0 elem :
  forall w, walk_inv Ok w0 w ->
    exists w',
      xml_walk re_search (pure_client Ok) args elem w = (Ok elem, w')
      /\ walk_inv Ok w0 w'.
Proof.
  induction elem as [tag attrib text tail children IH] using element_ind'.
  intros w Hw.
  assert (exists w1,
            (if text_present text
             then t <~ translate_text re_search (default "" text)
                         (pure_client Ok) args ;;
                  ret (Some t)
             else ret text) w = (Ok text, w1)
            /\ walk_inv Ok w0 w1) as (w1 & Htext & Hw1).
  { destruct (text_present text) eqn:Hp; [| by exists w].
    destruct text as [t|]; [| done].
    destruct (translate_text_pure re_search Ok t args w0 w Hw)
      as (w1 & E & Hw1).
    rewrite resolve_identity in E.
    exists w1. simpl. unfold bind. by rewrite E. }
  opose proof (mapM_inv
    (fun '(k, v) =>
       v' <~ translate_text re_search v (pure_client Ok) args ;; ret (k, v'))
    (fun kv : string * string => kv) (walk_inv Ok w0) attrib _ w1 Hw1)
    as (w2 & Hm2 & Hw2).
  { apply Forall_forall. intros [k v] _ w' Hw'.
    destruct (translate_text_pure re_search Ok v args w0 w' Hw')
      as (w'' & E & Hw'').
    rewrite resolve_identity in E.
    exists w''. unfold bind. by rewrite E. }
  opose proof (mapM_inv (xml_walk re_search (pure_client Ok) args)
    (fun c : element => c) (walk_inv Ok w0) children _ w2 Hw2)
    as (w3 & Hm3 & Hw3).
  { eapply Forall_impl; [exact IH |]. intros c Hc w' Hw'. by apply Hc. }
  rewrite map_id in Hm2, Hm3.
  exists w3. split; [| done]. simpl. unfold bind at 1. rewrite Htext.
  unfold bind at 1. rewrite Hm2. unfold bind at 1.
    fold (xml_walk (Net := Net) re_search (pure_client Ok) args).
  by rewrite Hm3.
Qed.

(** X5. A markup file that parses comes back as the serialization of the very
    tree that was parsed when the translation function is the identity and
    the cache holds no other translation. *)
Theorem translate_xml_identity
    (xml_parse : string -> result element) (xml_text : element -> string)
    path text root args w :
  fs w !! path = Some text ->
  xml_parse text = Ok root ->
  cache_agrees Ok (cache_db w) ->
  exists w',
    translate_xml re_search xml_parse xml_text path (pure_client Ok) args w
    = (Ok tt, w')
    /\ fs w' !! path = Some (xml_text root).
Proof.
  intros Hfs Hparse Hag.
  destruct (xml_walk_identity args w root w) as (w1 & Hw & _); [done |].
  eexists. unfold translate_xml, bind, read_text, lift.
  rewrite Hfs, Hparse, Hw. simpl. split; [reflexivity |]. simpl.
  apply lookup_insert_eq.
Qed.

End MarkupFacts.

(** * Line-oriented files *)

Section LineFiles.

Context {Net Delay : Type}.
Variable re_search : string -> string -> bool.

Implicit Types (s line : string) (f : @client Net) (args : Args Delay)
  (w : world Net).













End LineFiles.

(** * Catalogs, a second time *)

Section CatalogFacts.

Context {Net Delay X : Type}.
Variable re_search : string -> string -> bool.

Implicit Types (s : string) (args : Args Delay) (w : world Net)
  (e : POEntry X) (g : string -> result string).

Lemma po_loop_pure g args w0 (entries : list (POEntry X)) :
  forall changed w, walk_inv g w0 w ->
    exists w',
      po_loop re_search entries changed (pure_client g) args w
      = (Ok (map (po_resolved (skip_match re_search args) g) entries,
             changed || existsb po_candidate entries), w')
      /\ walk_inv g w0 w'.
Proof.
  induction entries as [|e r IH]; intros changed w Hw; simpl.
  - exists w. by rewrite orb_false_r.
  - unfold po_resolved at 1.
    destruct (decide (PyStr.strip (msgid e) = "")) as [Hid|Hid].
    { assert (po_candidate e = false) as Hc.
      { apply not_true_iff_false. rewrite po_candidate_true. tauto. }
      destruct (IH changed w Hw) as (w' & Hl & Hw').
      exists w'. unfold bind. by rewrite Hl, Hc. }
    destruct (decide (PyStr.strip (msgstr e) = "")) as [Hstr|Hstr].
    + assert (po_candidate e = true) as Hc by (by apply po_candidate_true).
      destruct (translate_text_pure re_search g (msgid e) args w0 w Hw)
        as (w1 & Ht & Hw1).
      destruct (IH true w1 Hw1) as (w' & Hl & Hw').
      exists w'. unfold bind. rewrite Ht, Hl, Hc. simpl.
      by rewrite orb_true_r.
    + assert (po_candidate e = false) as Hc.
      { apply not_true_iff_false. rewrite po_candidate_true. tauto. }
      destruct (IH changed w Hw) as (w' & Hl & Hw').
      exists w'. unfold bind. by rewrite Hl, Hc.
Qed.

Lemma strip_app_nonblank (a b c : string) :
  PyStr.strip b <> "" -> PyStr.strip (a +:+ b +:+ c) <> "".
Proof.
  rewrite !strip_all_space, !all_space_app.
  intros Hb. destruct (PyStr.all_space b); [done |].
  by rewrite andb_false_r.
Qed.

Lemma resolve_nonblank (skip : string -> bool) g s :
  (forall k t, g k = Ok t -> PyStr.strip t <> "") ->
  PyStr.strip s <> "" -> PyStr.strip (resolve skip g s) <> "".
Proof.
  intros Hg Hs. unfold resolve. rewrite decide_False by done.
  destruct (skip _); [done |].
  destruct (g (PyStr.strip s)) as [t|e] eqn:E; [| done].
  rewrite replace_strip by done. apply strip_app_nonblank. by eapply Hg.
Qed.

(** X9. When the translation function never answers with a blank text, one pass
    of the catalog loop leaves no candidate behind: a second pass over the
    entries changes none of them, sets no flag, and leaves the world (cache,
    call record) as the first pass left it. *)
Theorem po_second_pass g args (po : list (POEntry X)) changed w :
  (forall k t, g k = Ok t -> PyStr.strip t <> "") ->
  cache_agrees g (cache_db w) ->
  exists out c w1,
    po_loop re_search po changed (pure_client g) args w = (Ok (out, c), w1)
    /\ existsb po_candidate out = false
    /\ po_loop re_search out false (pure_client g) args w1
       = (Ok (out, false), w1).
Proof.
  intros Hg Hag.
  destruct (po_loop_pure g args w po changed w) as (w1 & Hl & Hw1); [done |].
  eexists _, _, w1. split; [exact Hl |].
  assert (existsb po_candidate
            (map (po_resolved (skip_match re_search args) g) po) = false)
    as Hnone.
    { clear -Hg.
    induction po as [|e r IH]; simpl; [done |]. rewrite IH, orb_false_r.
    unfold po_resolved. destruct (po_candidate e) eqn:Hc; [| done].
    apply po_candidate_true in Hc as [Hid _].
    apply not_true_iff_false. rewrite po_candidate_true. simpl.
    intros [_ Hb]. by eapply resolve_nonblank. }
  split; [done |].
    destruct (po_loop_spec re_search (fun _ => Ok []) (fun _ => "")
              (map (po_resolved (skip_match re_search args) g) po)
              (pure_client g) args false w1)
    as (out' & w2 & Hl2 & _ & _ & _ & Hsame).
  rewrite Hnone in Hl2, Hsame. destruct Hsame as [-> ->]; [done |].
  exact Hl2.
Qed.

End CatalogFacts.

(** * The backup and the loop of [main] *)

Section MainFacts.

Context {Net Delay X : Type}.
Variable re_search : string -> string -> bool.
Variable json_load : string -> result pyobj.
Variable yaml_safe_load : string -> result pyobj.
Variable yaml_emit : pyobj -> string.
Variable pofile : string -> result (list (POEntry X)).
Variable po_text : list (POEntry X) -> string.
Variable xml_parse : string -> result element.
Variable xml_text : element -> string.

Implicit Types (f path : string) (tf : @client Net) (args : Args Delay)
  (w : world Net) (st : run Net).

Abbreviation handlers :=
  (exts_handlers (Net := Net) (Delay := Delay) re_search json_load yaml_safe_load yaml_emit pofile po_text
     xml_parse xml_text).
Abbreviation process :=
  (process_file re_search json_load yaml_safe_load yaml_emit pofile po_text
     xml_parse xml_text).
Abbreviation loop :=
  (main_loop re_search json_load yaml_safe_load yaml_emit pofile po_text
     xml_parse xml_text).


Lemma handlers_handled f :
  handled f = false <-> handlers (lower (suffix f)) = None.
Proof.
  unfold handled, exts_handlers.
  rewrite bool_decide_eq_false, !elem_of_cons, elem_of_nil.
  repeat (destruct (decide _) as [->|?]); split; try done; try tauto.
Qed.

(** X11. The loop of [main] never stops early.  It prints one line per file; it
    adds one row to the log for every file that has a handler, in the order
    of the files, saying OK or ERROR with the text of the exception; a file
    without a handler gets no row, and when no file has a handler the world
    is left as it was. *)
Theorem main_loop_rows tf args (files : list string) :
  forall st,
    exists rows,
      log_rows (loop tf args files st) = log_rows st ++ rows
      /\ Forall2 row_of (filter (fun f => handled f = true) files) rows
      /\ length (stdout (loop tf args files st))
         = length (stdout st) + length files
      /\ (Forall (fun f => handled f = false) files ->
          run_world (loop tf args files st) = run_world st).
Proof.
  induction files as [|f files IH]; intros st.
  - exists []. rewrite app_nil_r. simpl. repeat split; [constructor | lia].
  - simpl. destruct (IH (process tf args f st)) as (rows & Hl & Hr & Hn & Hw).
    unfold process_file in *.
    destruct (handlers (lower (suffix f))) as [h|] eqn:Eh.
    + assert (handled f = true) as Hf.
      { apply not_false_iff_true. rewrite handlers_handled. congruence. }
      rewrite filter_cons, decide_True by done.
      destruct (h f tf args (run_world st)) as [[[]|[msg]] w1];
        simpl in *.
      * exists ([f; "OK"] :: rows). rewrite Hl, <- List.app_assoc.
        split; [done |]. split; [constructor; [by left | done] |].
        split; [rewrite Hn, length_app; simpl; lia |].
        intros [Hno _]%Forall_cons. congruence.
      * exists ([f; "ERROR"; msg] :: rows). rewrite Hl, <- List.app_assoc.
        split; [done |]. split; [constructor; [right; eauto | done] |].
        split; [rewrite Hn, length_app; simpl; lia |].
        intros [Hno _]%Forall_cons. congruence.
    + assert (handled f = false) as Hf by (by apply handlers_handled).
      rewrite filter_cons, decide_False by congruence. simpl in *.
      exists rows. split; [done |]. split; [done |].
      split; [rewrite Hn, length_app; simpl; lia |].
      intros [_ Hno]%Forall_cons. by apply Hw.
Qed.

(** X12. A file that does not parse (JSON, YAML, XML or a catalog) is logged as
    ERROR with the parser's message, the error goes to the diagnostic
    stream, and nothing else happens: the file, the cache and the call
    record are as they were. *)
Theorem unparsable_file_is_logged tf args f text msg st :
  fs (run_world st) !! f = Some text ->
  (lower (suffix f) = ".json" /\ json_load text = Raise (Exception msg))
  \/ ((lower (suffix f) = ".yml" \/ lower (suffix f) = ".yaml")
      /\ yaml_safe_load text = Raise (Exception msg))
  \/ (lower (suffix f) = ".xml" /\ xml_parse text = Raise (Exception msg))
  \/ (lower (suffix f) = ".po" /\ pofile text = Raise (Exception msg)) ->
  let st' := process tf args f st in
  log_rows st' = log_rows st ++ [[f; "ERROR"; msg]]
  /\ stderr (run_world st')
     = stderr (run_world st) ++ ["Error processing " +:+ f +:+ " " +:+ msg]
  /\ fs (run_world st') = fs (run_world st)
  /\ written (run_world st') = written (run_world st)
  /\ cache_db (run_world st') = cache_db (run_world st)
  /\ calls (run_world st') = calls (run_world st).
Proof.
  intros Hfs H. unfold process_file, exts_handlers.
  destruct H as [[-> H]|[[[-> | ->] H]|[[-> H]|[-> H]]]]; simpl;
    unfold translate_json, translate_yaml, translate_xml, translate_po,
      bind, read_text, po_source, lift;
    rewrite Hfs; simpl; rewrite H; done.
Qed.

Lemma backup_path_name (dir f g : string) :
  backup_path dir f = backup_path dir g -> path_name f = path_name g.
Proof.
  unfold backup_path. intros H.
  apply (inj (String.app dir)) in H. by apply (inj (String.app "/")) in H.
Qed.

(** X13. The backup, for files that exist and none of which lies where a backup
    goes: it completes; the files themselves are as they were, and so is
    everything that is not a backup place; and under [backup_dir] the name
    of a file holds the content of the last file of the list with that name
    (so of two files with one name, only the later one is kept). *)
Theorem backup_last_wins (backup_dir : string) (files : list string) w :
  Forall (fun f => is_Some (fs w !! f)) files ->
  (forall f g, f ∈ files -> g ∈ files -> backup_path backup_dir g <> f) ->
  exists w',
    backup_files backup_dir files w = (Ok tt, w')
    /\ (forall p, (forall g, g ∈ files -> p <> backup_path backup_dir g) ->
          fs w' !! p = fs w !! p)
    /\ (forall l1 f l2,
          files = l1 ++ f :: l2 ->
          Forall (fun g => path_name g <> path_name f) l2 ->
          fs w' !! backup_path backup_dir f = fs w !! f)
    /\ cache_db w' = cache_db w.
Proof.
  revert w. induction files as [|f files IH]; intros w Hex Hsep.
  - exists w. repeat split; auto.
    intros l1 f l2 E. by destruct l1.
  - apply Forall_cons in Hex as [[text Hf] Hex].
    assert (backup_path backup_dir f <> f) as Hne.
    { apply Hsep; apply elem_of_cons; by left. }
    opose proof (IH (World (cache_db w) (net w) (calls w) (stderr w)
                      (<[backup_path backup_dir f := text]> (fs w))
                      (written w ++ [backup_path backup_dir f])) _ _)
      as (w' & Hrun & Hframe & Hlast & Hdb).
        { apply Forall_forall. intros g Hg. simpl.
            rewrite lookup_insert_ne; [by eapply Forall_forall in Hex |].
      apply Hsep; apply elem_of_cons; [by right | by left]. }
    { intros g1 g2 H1 H2. apply Hsep; apply elem_of_cons; by right. }
    exists w'. split.
    { simpl. unfold bind at 1, copy2. rewrite decide_False by done.
      unfold bind at 1, read_text. rewrite Hf. simpl. exact Hrun. }
    split; [| split; [| done]].
    + intros p Hp. rewrite Hframe.
      * simpl. rewrite lookup_insert_ne; [done |].
        intros E. apply (Hp f); [apply elem_of_cons; by left | done].
      * intros g Hg. apply Hp. apply elem_of_cons. by right.
    + intros l1 x l2 E Hl2. destruct l1 as [|y l1]; simpl in E.
      * injection E as -> ->. rewrite Hframe.
        { simpl. rewrite lookup_insert_eq. done. }
        intros g Hg Eg. apply backup_path_name in Eg.
        eapply Forall_forall in Hl2; [| exact Hg]. congruence.
      * injection E as -> ->. rewrite (Hlast l1 x l2) by done. simpl.
        rewrite lookup_insert_ne; [done |].
                apply Hsep; apply elem_of_cons; [| by left].
        right. apply elem_of_app. right. apply elem_of_cons. by left.
Qed.

End MainFacts.

(** * Instances of the further theorems *)

(** [walk_sends_once] at a document that holds ["a"] three times. *)
Lemma walk_sends_once_witness :
  shout "a" = Ok "A"
  /\ exists o' w' cs,
       walk re_none (pure_client shout) args_en_ja
         (PList [PStr "a"; PStr " a "; PDict [("k", PStr "a")]]) w_empty
       = (Ok o', w')
       /\ calls w' = calls w_empty ++ cs
       /\ occurrences "a" cs <= 1
       /\ (truthy (cache_db w_empty !! "a") = true ->
           occurrences "a" cs = 0).
Proof.
  split; [reflexivity |].
  refine (walk_sends_once re_none shout args_en_ja _ w_empty "a" "A" _ _);
    [reflexivity | discriminate].
Defined.




(** [translate_xml_identity] at the document [el_greeting]. *)
Lemma translate_xml_identity_witness :
  exists w',
    translate_xml re_none (fun _ => Ok el_greeting) (fun _ => "<root/>")
      "a.xml" (pure_client Ok) args_en_ja (w_file "a.xml" "")
    = (Ok tt, w')
    /\ fs w' !! "a.xml" = Some "<root/>".
Proof.
  refine (translate_xml_identity re_none (fun _ => Ok el_greeting)
            (fun _ => "<root/>") "a.xml" "" el_greeting args_en_ja
            (w_file "a.xml" "") _ _ _); [reflexivity | reflexivity |].
  intros k v Hk. simpl in Hk. rewrite lookup_empty in Hk. discriminate.
Defined.

(** [po_second_pass] at a catalog with one candidate. *)
Lemma po_second_pass_witness :
  let po := [MkPOEntry "yes" "oui" tt; MkPOEntry "no" "" tt] in
  (forall k t, always_x k = Ok t -> PyStr.strip t <> "")
  /\ exists out c w1,
       po_loop re_none po false (pure_client always_x) args_en_ja w_empty
       = (Ok (out, c), w1)
       /\ existsb po_candidate out = false
       /\ po_loop re_none out false (pure_client always_x) args_en_ja w1
          = (Ok (out, false), w1).
Proof.
  intros po.
  assert (forall k t, always_x k = Ok t -> PyStr.strip t <> "") as Hg.
  { intros k t [= <-]. discriminate. }
  split; [exact Hg |].
  refine (po_second_pass re_none always_x args_en_ja po false w_empty Hg _).
  intros k v Hk. simpl in Hk. rewrite lookup_empty in Hk. discriminate.
Defined.


(** [unparsable_file_is_logged] at a JSON file that does not parse. *)
Lemma unparsable_file_is_logged_witness :
  let st := run_start (w_file "mods/en.JSON" "{") in
  let st' := process_file (X := unit) re_none
               (fun _ => Raise (Exception "Expecting property name"))
               (fun _ => Ok (PList [])) (PyJson.dumps 0) (fun _ => Ok [])
               (fun _ => "") (fun _ => Ok el_greeting) (fun _ => "")
               (pure_client shout) args_en_ja "mods/en.JSON" st in
  lower (suffix "mods/en.JSON") = ".json"
  /\ log_rows st' = [["mods/en.JSON"; "ERROR"; "Expecting property name"]]
  /\ fs (run_world st') = fs (run_world st).
Proof.
  intros st st'. split; [reflexivity |].
  destruct (unparsable_file_is_logged (X := unit) re_none
              (fun _ => Raise (Exception "Expecting property name"))
              (fun _ => Ok (PList [])) (PyJson.dumps 0) (fun _ => Ok [])
              (fun _ => "") (fun _ => Ok el_greeting) (fun _ => "")
              (pure_client shout) args_en_ja "mods/en.JSON" "{"
              "Expecting property name" st eq_refl
              (or_introl (conj eq_refl eq_refl)))
    as (Hrows & _ & Hfs & _).
  split; [exact Hrows | exact Hfs].
Defined.

(** [backup_last_wins] at two files of one name: the backup holds the later
    one. *)
Lemma backup_last_wins_witness :
  path_name "x/a.txt" = path_name "y/a.txt"
  /\ exists w',
       backup_files ".backup" ["x/a.txt"; "y/a.txt"] w_two_files
       = (Ok tt, w')
       /\ fs w' !! ".backup/a.txt" = Some "second"
       /\ fs w' !! "x/a.txt" = Some "first".
Proof.
  split; [reflexivity |].
  assert (Forall (fun f => is_Some (fs w_two_files !! f))
                 ["x/a.txt"; "y/a.txt"]) as Hex.
  { repeat constructor; eexists; reflexivity. }
  assert (forall f g : string,
            f ∈ ["x/a.txt"; "y/a.txt"] -> g ∈ ["x/a.txt"; "y/a.txt"] ->
            backup_path ".backup" g <> f) as Hsep.
  { intros f g Hf Hg.
    apply elem_of_cons in Hf as [->|Hf];
      [| apply elem_of_cons in Hf as [->|Hf];
         [| by apply elem_of_nil in Hf]];
      (apply elem_of_cons in Hg as [->|Hg];
       [| apply elem_of_cons in Hg as [->|Hg];
          [| by apply elem_of_nil in Hg]]);
      discriminate. }
  destruct (backup_last_wins ".backup" ["x/a.txt"; "y/a.txt"] w_two_files
              Hex Hsep) as (w' & Hrun & Hframe & Hlast & _).
  exists w'. split; [exact Hrun |]. split.
  - exact (Hlast ["x/a.txt"] "y/a.txt" [] eq_refl (Forall_nil_2 _)).
  - rewrite Hframe; [reflexivity |].
    intros g Hg.
    apply elem_of_cons in Hg as [->|Hg];
      [| apply elem_of_cons in Hg as [->|Hg];
         [| by apply elem_of_nil in Hg]];
      discriminate.
Defined.
